(** * HR_Visual: the reshape / filter / aggregate pipeline of the workforce dashboard

    A shallow embedding of [HR_Visual.py].  The script loads a wide census
    table, melts the worker-count columns into a long table, narrows it with
    the sidebar selections and derives the tables behind each chart.

    Conventions of the embedding:
    - a data frame is a header and a list of rows (lists of cells, aligned
      with the header); a cell is a number, a string or NaN (a blank field);
    - numbers are exact rationals [Q]: binary64 rounding and overflow are left
      out, which is what the phrase "within floating-point tolerance" of the
      properties refers to; the quotients the script computes live in [fval],
      which adds the values numpy returns for a zero divisor (inf, -inf, NaN);
    - the Count column is int64 or float64 ([dtype]).  An int64 sum wraps
      modulo 2^64: the definitions whose name ends in [_as] take the dtype and
      sum with [series_sum]; those without sum exactly, which is the float64
      reading and agrees with the int64 one as long as no sum leaves the
      range;
    - the data frame index is kept in each row ([idx]), so that a row keeps
      its identity through boolean-mask selection;
    - a [KeyError] raised by [split_cols[k]] is [None]; the State, District
      and Industry_Category columns are those of the input schema, and a name
      missing from a row reads as NaN;
    - the Streamlit widgets are the fields of [Controls]: a run of the script
      is a function of the table and of the values the widgets return. *)

From Stdlib Require Import List String Ascii Bool Arith Lia.
From Stdlib Require Import QArith Qround Lqa Permutation Sorted.
Import ListNotations.

Local Open Scope string_scope.
Local Open Scope Q_scope.

Set Implicit Arguments.

(** ** Cells and data frames *)

Inductive cell : Type :=
| CNum (q : Q)
| CStr (s : string)
| CNaN.

Definition cell_eqb (a b : cell) : bool :=
  match a, b with
  | CNum x, CNum y => Qeq_bool x y
  | CStr s, CStr t => String.eqb s t
  | CNaN, CNaN => true
  | _, _ => false
  end.

Definition notna (c : cell) : bool :=
  match c with CNaN => false | _ => true end.

(** [x in l] on strings and [Series.isin] on cells (isin matches NaN with
    NaN). *)
Definition str_in (s : string) (l : list string) : bool :=
  existsb (String.eqb s) l.

Definition isin (c : cell) (values : list cell) : bool :=
  existsb (cell_eqb c) values.

Record DataFrame : Type := {
  columns : list string;
  rows : list (list cell)
}.

(** A row read with its header: the cells by column name. *)
Definition record : Type := list (string * cell).

Definition records (data : DataFrame) : list record :=
  map (fun r => combine (columns data) r) (rows data).

Fixpoint get (name : string) (r : record) : cell :=
  match r with
  | [] => CNaN
  | (c, v) :: rest => if String.eqb c name then v else get name rest
  end.

Definition select (names : list string) (r : record) : record :=
  map (fun c => (c, get c r)) names.

(** ** Identify worker columns (lines 34-35) *)

Definition startswith (c : string) (prefixes : list string) : bool :=
  existsb (fun p => String.prefix p c) prefixes.

Definition is_worker_col (c : string) : bool :=
  startswith c ["Main_Workers"; "Marginal_Workers"].

Definition worker_cols (data : DataFrame) : list string :=
  filter is_worker_col (columns data).

Definition id_cols (data : DataFrame) : list string :=
  filter (fun c => negb (str_in c (worker_cols data))) (columns data).

(** ** Wide to long (lines 40-45)

    [melt] emits, for each value column in turn, one row per input row; the
    result is re-indexed from 0. *)

Record MeltRow : Type := {
  m_idx : nat;
  m_ids : record;
  Variable_ : string;
  m_Count : cell
}.

Fixpoint number_from (n : nat) (l : list (record * string * cell)) : list MeltRow :=
  match l with
  | [] => []
  | (i, v, c) :: rest =>
      {| m_idx := n; m_ids := i; Variable_ := v; m_Count := c |}
        :: number_from (S n) rest
  end.

Definition melt (data : DataFrame) (id_vars value_vars : list string) : list MeltRow :=
  number_from 0
    (flat_map
       (fun v => map (fun r => (select id_vars r, v, get v r)) (records data))
       value_vars).

(** ** Split worker metadata (lines 50-63) *)

(** [str.split] on a one-character separator. *)
Fixpoint str_split (sep : ascii) (s : string) : list string :=
  match s with
  | EmptyString => [EmptyString]
  | String c rest =>
      if Ascii.eqb c sep then EmptyString :: str_split sep rest
      else match str_split sep rest with
           | [] => [String c EmptyString]
           | h :: t => String c h :: t
           end
  end.

(** [str.split("-", expand=True)]: a frame with as many columns as the
    longest split, shorter splits padded with None. *)
Record Expanded : Type := {
  width : nat;
  parts : list (list string)
}.

Definition str_split_expand (vars : list string) : Expanded :=
  let ps := map (str_split "-") vars in
  {| width := list_max (map (@List.length string) ps); parts := ps |}.

(** [split_cols[k]]: a [KeyError] when the frame has no column [k]. *)
Definition getitem (e : Expanded) (k : nat) : option (list (option string)) :=
  if (k <? width e)%nat then Some (map (fun p => nth_error p k) (parts e))
  else None.

(** [Series.replace] with a dict: exact matches are replaced, anything else
    (None included) is kept. *)
Fixpoint lookup_str (mapping : list (string * string)) (s : string) : option string :=
  match mapping with
  | [] => None
  | (k, v) :: rest => if String.eqb k s then Some v else lookup_str rest s
  end.

Definition replace (mapping : list (string * string)) (v : option string) : option string :=
  match v with
  | None => None
  | Some s => match lookup_str mapping s with
              | Some t => Some t
              | None => Some s
              end
  end.

Definition worker_type_map : list (string * string) :=
  [("Main_Workers", "Main"); ("Marginal_Workers", "Marginal")].

Definition gender_map : list (string * string) :=
  [("Males", "Male"); ("Females", "Female"); ("Persons", "Total")].

(** A row of [long_data]; [C] is the type of the Count column, which changes
    from raw cells to numbers along lines 68-69. *)
Record Row (C : Type) : Type := {
  idx : nat;
  ids : record;
  Worker_Type : option string;
  Area : option string;
  Gender : option string;
  Count : C
}.

Definition mk_row (m : MeltRow) (w a g : option string) : Row cell :=
  {| idx := m_idx m; ids := m_ids m;
     Worker_Type := w; Area := a; Gender := g; Count := m_Count m |}.

Fixpoint zip_rows (ms : list MeltRow) (ws az gs : list (option string)) : list (Row cell) :=
  match ms, ws, az, gs with
  | m :: ms', w :: ws', a :: az', g :: gs' => mk_row m w a g :: zip_rows ms' ws' az' gs'
  | _, _, _, _ => []
  end.

Definition split_metadata (long : list MeltRow) : option (list (Row cell)) :=
  let split_cols := str_split_expand (map Variable_ long) in
  match getitem split_cols 0 with
  | None => None
  | Some c0 =>
      match getitem split_cols 1 with
      | None => None
      | Some c1 =>
          match getitem split_cols 2 with
          | None => None
          | Some c2 =>
              Some (zip_rows long
                      (map (replace worker_type_map) c0)
                      c1
                      (map (replace gender_map) c2))
          end
      end
  end.

(** ** Convert Count to numeric (lines 68-69) *)

Section Reshape.

(** The parser [pd.to_numeric] applies to the strings of an object column. *)
Variable parse_number : string -> option Q.

Definition to_numeric (c : cell) : option Q :=
  match c with
  | CNum q => Some q
  | CStr s => parse_number s
  | CNaN => None
  end.

Definition coerce_count (r : Row cell) : Row (option Q) :=
  {| idx := idx r; ids := ids r; Worker_Type := Worker_Type r;
     Area := Area r; Gender := Gender r; Count := to_numeric (Count r) |}.

Definition dropna_count (long : list (Row (option Q))) : list (Row Q) :=
  flat_map
    (fun r =>
       match Count r with
       | Some q => [{| idx := idx r; ids := ids r; Worker_Type := Worker_Type r;
                       Area := Area r; Gender := Gender r; Count := q |}]
       | None => []
       end)
    long.

(** The long table of the script, from the loaded frame to line 69. *)
Definition reshape (data : DataFrame) : option (list (Row Q)) :=
  match split_metadata (melt data (id_cols data) (worker_cols data)) with
  | None => None
  | Some long => Some (dropna_count (map coerce_count long))
  end.

(** The emitted records whose Count does not convert. *)
Definition unparseable (data : DataFrame) : nat :=
  List.length (filter (fun m => match to_numeric (m_Count m) with Some _ => false | None => true end)
            (melt data (id_cols data) (worker_cols data))).

End Reshape.

(** A parser for unsigned decimal numerals, enough to run the model on
    concrete tables. *)
Definition digit_of (c : ascii) : option nat :=
  let n := nat_of_ascii c in
  if ((48 <=? n) && (n <=? 57))%nat then Some (n - 48)%nat else None.

Fixpoint parse_digits (acc : nat) (s : string) : option nat :=
  match s with
  | EmptyString => Some acc
  | String c rest =>
      match digit_of c with
      | Some d => parse_digits (10 * acc + d) rest
      | None => None
      end
  end.

Definition parse_decimal (s : string) : option Q :=
  match s with
  | EmptyString => None
  | _ => option_map (fun n => inject_Z (Z.of_nat n)) (parse_digits 0 s)
  end.

Definition example_wide : DataFrame :=
  {| columns := ["State"; "District"; "Industry_Category";
                 "Main_Workers-Rural-Males"; "Main_Workers-Urban-Females"];
     rows := [[CStr "Tamilnadu"; CStr "Chennai"; CStr "Textiles"; CNum 100; CNum 50]] |}.

(** ** Numbers of the derived columns

    The result of a float division: a finite value, or what numpy returns
    when the divisor is zero. *)

Inductive fval : Type :=
| Fin (q : Q)
| PosInf
| NegInf
| NaN.

Definition is_finite (v : fval) : bool :=
  match v with Fin _ => true | _ => false end.

Definition isnan (v : fval) : bool :=
  match v with NaN => true | _ => false end.

(** Sign of a rational: [Gt] positive, [Lt] negative, [Eq] zero. *)
Definition sign (q : Q) : comparison := Qcompare q 0.

(** [a / b] on float columns. *)
Definition qdiv (a b : Q) : fval :=
  if Qeq_bool b 0 then
    match sign a with
    | Gt => PosInf
    | Lt => NegInf
    | Eq => NaN
    end
  else Fin (a / b).

Definition fmul (a b : fval) : fval :=
  match a, b with
  | NaN, _ | _, NaN => NaN
  | Fin x, Fin y => Fin (x * y)
  | Fin x, PosInf | PosInf, Fin x =>
      match sign x with Gt => PosInf | Lt => NegInf | Eq => NaN end
  | Fin x, NegInf | NegInf, Fin x =>
      match sign x with Gt => NegInf | Lt => PosInf | Eq => NaN end
  | PosInf, PosInf | NegInf, NegInf => PosInf
  | PosInf, NegInf | NegInf, PosInf => NegInf
  end.

Definition fadd (a b : fval) : fval :=
  match a, b with
  | NaN, _ | _, NaN => NaN
  | Fin x, Fin y => Fin (x + y)
  | PosInf, NegInf | NegInf, PosInf => NaN
  | PosInf, _ | _, PosInf => PosInf
  | NegInf, _ | _, NegInf => NegInf
  end.

(** [Series.sum()]: NaN entries are skipped, an empty sum is 0. *)
Definition fsum (l : list fval) : fval :=
  fold_right fadd (Fin 0) (filter (fun v => negb (isnan v)) l).

Definition qsum (l : list Q) : Q := fold_right Qplus 0 l.

(** [v > t] on a float column: false on NaN. *)
Definition fgt (v : fval) (t : Q) : bool :=
  match v with
  | Fin q => negb (Qle_bool q t)
  | PosInf => true
  | NegInf | NaN => false
  end.

(** Equality of derived values up to the representation of rationals. *)
Definition feq (a b : fval) : Prop :=
  match a, b with
  | Fin x, Fin y => x == y
  | PosInf, PosInf | NegInf, NegInf | NaN, NaN => True
  | _, _ => False
  end.

(** The order [sort_values(ascending=False)] puts a column in: larger values
    first, NaN last. *)
Definition desc_before (a b : fval) : bool :=
  match a, b with
  | _, NaN => true
  | NaN, _ => false
  | PosInf, _ => true
  | _, NegInf => true
  | NegInf, _ => false
  | Fin _, PosInf => false
  | Fin x, Fin y => Qle_bool y x
  end.

(** ** Sorting and grouping *)

Section Sorting.

Variable A : Type.
Variable before : A -> A -> bool.

Fixpoint insert_by (x : A) (l : list A) : list A :=
  match l with
  | [] => [x]
  | y :: rest => if before x y then x :: l else y :: insert_by x rest
  end.

Definition sort_by (l : list A) : list A := fold_right insert_by [] l.

End Sorting.

Section GroupBy.

Variables K R : Type.
Variable eqb : K -> K -> bool.
Variable leb : K -> K -> bool.
(** The group key of a row; [None] for a NaN key, which [groupby] drops. *)
Variable key : R -> option K.

Fixpoint add_to_group (k : K) (r : R) (groups : list (K * list R)) : list (K * list R) :=
  match groups with
  | [] => [(k, [r])]
  | (k', rs) :: rest =>
      if eqb k' k then (k', r :: rs) :: rest
      else (k', rs) :: add_to_group k r rest
  end.

Definition collect (rows : list R) : list (K * list R) :=
  fold_right
    (fun r acc => match key r with
                  | Some k => add_to_group k r acc
                  | None => acc
                  end)
    [] rows.

(** [groupby(...)]: the rows of each key, in their order, keys ascending. *)
Definition groupby (rows : list R) : list (K * list R) :=
  sort_by (fun g h => leb (fst g) (fst h)) (collect rows).

End GroupBy.

Definition cell_leb (a b : cell) : bool :=
  match a, b with
  | CNum x, CNum y => Qle_bool x y
  | CNum _, _ => true
  | CStr _, CNum _ => false
  | CStr s, CStr t => String.leb s t
  | CStr _, CNaN => true
  | CNaN, CNaN => true
  | CNaN, _ => false
  end.

Definition pair_eqb (a b : cell * cell) : bool :=
  cell_eqb (fst a) (fst b) && cell_eqb (snd a) (snd b).

Definition pair_leb (a b : cell * cell) : bool :=
  if cell_eqb (fst a) (fst b) then cell_leb (snd a) (snd b)
  else cell_leb (fst a) (fst b).

Definition key_of (c : cell) : option cell :=
  if notna c then Some c else None.

Definition key_of2 (c d : cell) : option (cell * cell) :=
  if notna c && notna d then Some (c, d) else None.

(** [Series.unique()] (first occurrences, NaN kept once) and
    [Series.nunique()] (NaN not counted). *)
Fixpoint unique (l : list cell) : list cell :=
  match l with
  | [] => []
  | c :: rest => c :: filter (fun d => negb (cell_eqb d c)) (unique rest)
  end.

Definition nunique (l : list cell) : nat :=
  List.length (unique (filter notna l)).

(** ** The long table and the sidebar *)

Definition LongRow : Type := Row Q.

Definition State (r : LongRow) : cell := get "State" (ids r).
Definition District (r : LongRow) : cell := get "District" (ids r).
Definition Industry_Category (r : LongRow) : cell := get "Industry_Category" (ids r).

Inductive UseCase : Type :=
| GeneralOverview
| InvestmentPlanning
| SkillGapAnalysis
| GenderInclusion
| DependencyRisk
| UrbanizationMigration.

Inductive ViewLevel : Type := DistrictWise | StateWise.

(** What the widgets return in one run of the script.  The option lists the
    widgets offer (the sorted distinct values of the table as filtered so far)
    only restrict these values; nothing below depends on the restriction. *)
Record Controls : Type := {
  use_case : UseCase;
  view_level : ViewLevel;
  show_percentage : bool;
  selected_states : list cell;
  (** the value of the district multiselect, drawn only in the
      district-wise view *)
  district_choice : list cell;
  worker_type : option string;
  area : option string;
  gender : option string;
  selected_clusters : list cell
}.

(** Lines 103-114. *)
Definition selected_districts (ctl : Controls) : option (list cell) :=
  match view_level ctl with
  | DistrictWise => Some (district_choice ctl)
  | StateWise => None
  end.

(** [column == value] on a string column: a missing entry equals nothing. *)
Definition eq_sel (v sel : option string) : bool :=
  match v, sel with
  | Some a, Some b => String.eqb a b
  | _, _ => false
  end.

(** ** Filter chain (lines 119-160) *)

(** The boolean masks the script selects rows with. *)
Definition state_mask (ctl : Controls) (r : LongRow) : bool :=
  isin (State r) (selected_states ctl).

Definition district_mask (districts : list cell) (r : LongRow) : bool :=
  isin (District r) districts.

Definition worker_type_mask (ctl : Controls) (r : LongRow) : bool :=
  eq_sel (Worker_Type r) (worker_type ctl).

Definition area_mask (ctl : Controls) (r : LongRow) : bool :=
  eq_sel (Area r) (area ctl).

Definition gender_mask (ctl : Controls) (r : LongRow) : bool :=
  eq_sel (Gender r) (gender ctl).

Definition industry_mask (ctl : Controls) (r : LongRow) : bool :=
  isin (Industry_Category r) (selected_clusters ctl).

(** Line 119. *)
Definition by_state (ctl : Controls) (long : list LongRow) : list LongRow :=
  filter (state_mask ctl) long.

(** Lines 121-124: [if selected_districts:] is false on None and on []. *)
Definition by_district (ctl : Controls) (fd : list LongRow) : list LongRow :=
  match selected_districts ctl with
  | Some (d :: ds) => filter (district_mask (d :: ds)) fd
  | Some [] | None => fd
  end.

Definition geography (ctl : Controls) (long : list LongRow) : list LongRow :=
  by_district ctl (by_state ctl long).

(** Lines 143-147: one mask, the conjunction of three comparisons. *)
Definition by_worker (ctl : Controls) (fd : list LongRow) : list LongRow :=
  filter
    (fun r => worker_type_mask ctl r && area_mask ctl r && gender_mask ctl r)
    fd.

(** Lines 158-160. *)
Definition by_industry (ctl : Controls) (fd : list LongRow) : list LongRow :=
  filter (industry_mask ctl) fd.

(** The six filters of the chain, one at a time. *)
Inductive FilterStage : Type :=
| StateStage
| DistrictStage
| WorkerTypeStage
| AreaStage
| GenderStage
| IndustryStage.

Definition apply_stage (s : FilterStage) (ctl : Controls) (fd : list LongRow) : list LongRow :=
  match s with
  | StateStage => by_state ctl fd
  | DistrictStage => by_district ctl fd
  | WorkerTypeStage => filter (worker_type_mask ctl) fd
  | AreaStage => filter (area_mask ctl) fd
  | GenderStage => filter (gender_mask ctl) fd
  | IndustryStage => by_industry ctl fd
  end.

(** ** Percentage handling (lines 165-172) *)

Inductive ValueCol : Type := ColCount | ColValue.

(** A row of [filtered_data] once the Value column may have been added. *)
Record FRow : Type := {
  base : LongRow;
  Value : option fval
}.

(** Line 166: [filtered_data["Count"].sum()], summed exactly; [total_as] is
    the sum at the dtype of the column. *)
Definition grand_total (fd : list LongRow) : Q := qsum (map (@Count Q) fd).

Definition percentage (fd : list LongRow) : list FRow :=
  let total := grand_total fd in
  map (fun r => {| base := r;
                   Value := Some (fmul (qdiv (Count r) total) (Fin 100)) |})
      fd.

Definition plain (fd : list LongRow) : list FRow :=
  map (fun r => {| base := r; Value := None |}) fd.

Definition with_value (ctl : Controls) (fd : list LongRow) : list FRow * ValueCol :=
  if show_percentage ctl then (percentage fd, ColValue)
  else (plain fd, ColCount).

(** [filtered_data[value_col]] on one row. *)
Definition value (vc : ValueCol) (r : FRow) : fval :=
  match vc with
  | ColCount => Fin (Count (base r))
  | ColValue => match Value r with Some v => v | None => NaN end
  end.

(** ** Aggregated views *)

Definition sort_values_desc (K : Type) (df : list (K * fval)) : list (K * fval) :=
  sort_by (fun a b => desc_before (snd a) (snd b)) df.

(** [groupby(<column>)] on [filtered_data]. *)
Definition cell_groups (key : FRow -> cell) (fd : list FRow) : list (cell * list FRow) :=
  groupby cell_eqb cell_leb (fun r => key_of (key r)) fd.

(** [groupby(<column>)[value_col].sum().reset_index()]. *)
Definition group_sum (vc : ValueCol) (key : FRow -> cell) (fd : list FRow) : list (cell * fval) :=
  map (fun g => (fst g, fsum (map (value vc) (snd g)))) (cell_groups key fd).

(** Lines 190-195. *)
Definition industry_df (vc : ValueCol) (fd : list FRow) : list (cell * fval) :=
  sort_values_desc (group_sum vc (fun r => Industry_Category (base r)) fd).

(** Lines 207-214. *)
Definition geo_col (ctl : Controls) (r : FRow) : cell :=
  match view_level ctl with
  | DistrictWise => District (base r)
  | StateWise => State (base r)
  end.

Definition geo_title (ctl : Controls) : string :=
  match view_level ctl with
  | DistrictWise => "Workforce by District"
  | StateWise => "Workforce by State"
  end.

Definition geo_df (ctl : Controls) (vc : ValueCol) (fd : list FRow) : list (cell * fval) :=
  sort_values_desc (group_sum vc (geo_col ctl) fd).

(** Lines 264-279, Total_Workers summed exactly; [invest_agg_as],
    [invest_df_as] and [invest_shown_as] sum at the dtype of Count. *)
Record InvestRow : Type := {
  inv_District : cell;
  Total_Workers : Q;
  Industry_Count : nat;
  Investment_Score : fval
}.

Definition invest_agg (fd : list FRow) : list (cell * Q * nat) :=
  map (fun g => (fst g,
                 qsum (map (fun r => Count (base r)) (snd g)),
                 nunique (map (fun r => Industry_Category (base r)) (snd g))))
      (cell_groups (fun r => District (base r)) fd).

Definition invest_df (fd : list FRow) : list InvestRow :=
  map (fun x =>
         match x with
         | (d, total, n) =>
             {| inv_District := d; Total_Workers := total; Industry_Count := n;
                Investment_Score := qdiv total (inject_Z (Z.of_nat n)) |}
         end)
      (invest_agg fd).

Definition invest_shown (fd : list FRow) : list InvestRow :=
  sort_by (fun a b => desc_before (Investment_Score a) (Investment_Score b))
          (invest_df fd).

(** Lines 290-294 and 331-335: Count summed by (District, Industry_Category),
    exactly; [district_industry_as] sums at the dtype of Count. *)
Definition district_industry_key (r : FRow) : option (cell * cell) :=
  key_of2 (District (base r)) (Industry_Category (base r)).

Definition district_industry (fd : list FRow) : list (cell * cell * Q) :=
  map (fun g => (fst g, qsum (map (fun r => Count (base r)) (snd g))))
      (groupby pair_eqb pair_leb district_industry_key fd).

(** Lines 337-340, the district total summed exactly; [district_total_as],
    [dep_df_as] and [risk_df_as] sum at the dtype of Count. *)
Record DepRow : Type := {
  dep_District : cell;
  dep_Industry : cell;
  dep_Count : Q;
  Share : fval
}.

Definition district_total (d : cell) (counts : list (cell * cell * Q)) : Q :=
  qsum (map snd (filter (fun x => cell_eqb (fst (fst x)) d) counts)).

Definition dep_df (fd : list FRow) : list DepRow :=
  let counts := district_industry fd in
  map (fun x =>
         {| dep_District := fst (fst x); dep_Industry := snd (fst x);
            dep_Count := snd x;
            Share := qdiv (snd x) (district_total (fst (fst x)) counts) |})
      counts.

Definition risk_df (fd : list FRow) : list DepRow :=
  filter (fun x => fgt (Share x) (6 # 10)) (dep_df fd).

(** ** The script as a program

    What a run puts on the page, in order; [st.stop()] ends the run.  A run
    that is stopped returns no tables. *)

Inductive Element : Type :=
| st_warning (body : string)
| st_info (body : string)
| st_subheader (body : string)
| st_metric (label : string)
| st_plotly_chart (title : string)
| st_dataframe (name : string)
| st_download_button (file_name : string)
| st_markdown.

Definition Script (A : Type) : Type := (option A * list Element)%type.

Definition ret (A : Type) (a : A) : Script A := (Some a, []).

Definition bind (A B : Type) (m : Script A) (f : A -> Script B) : Script B :=
  match m with
  | (None, out) => (None, out)
  | (Some a, out) =>
      match f a with
      | (b, out') => (b, (out ++ out')%list)
      end
  end.

Definition show (e : Element) : Script unit := (Some tt, [e]).

Definition st_stop (A : Type) : Script A := (None, []).

Notation "m ;; k" := (bind m (fun _ => k))
  (at level 61, right associativity).
Notation "x <- m ;; k" := (bind m (fun x => k))
  (at level 61, m at next level, right associativity).

Inductive ModuleView : Type :=
| NoModule
| Investment (shown : list InvestRow)
| SkillGap (skill_df : list (cell * cell * Q))
| Dependency (risk : list DepRow)
| ChartOnly.

Record Dashboard : Type := {
  filtered_data : list FRow;
  value_col : ValueCol;
  industry_view : list (cell * fval);
  geography_view : list (cell * fval);
  module_view : ModuleView
}.

Definition no_data : string := "No data available for the selected filters.".

Definition empty (A : Type) (df : list A) : bool :=
  match df with [] => true | _ => false end.

(** Lines 261-376; the gender and urbanization modules only draw a chart
    from [long_data] and are kept as [ChartOnly]. *)
Definition use_case_module (ctl : Controls) (fd : list FRow) : Script ModuleView :=
  match use_case ctl with
  | GeneralOverview => ret NoModule
  | InvestmentPlanning =>
      show (st_subheader "Investment Opportunity Analysis") ;;
      show (st_dataframe "invest_df") ;;
      show (st_info "Districts with high workforce and low industry saturation are ideal for new industrial investments.") ;;
      ret (Investment (invest_shown fd))
  | SkillGapAnalysis =>
      show (st_subheader "Skill Gap Analysis") ;;
      show (st_dataframe "skill_df") ;;
      show (st_info "High workforce but limited industry diversity indicates the need for skill development programs.") ;;
      ret (SkillGap (district_industry fd))
  | GenderInclusion =>
      show (st_subheader "Gender Participation Analysis") ;;
      show (st_plotly_chart "Gender-wise Workforce Composition") ;;
      ret ChartOnly
  | DependencyRisk =>
      show (st_subheader "Industry Dependency Risk") ;;
      show (st_dataframe "risk_df") ;;
      show (st_warning "Districts heavily dependent on a single industry are economically vulnerable.") ;;
      ret (Dependency (risk_df fd))
  | UrbanizationMigration =>
      show (st_subheader "Urban vs Rural Workforce") ;;
      show (st_plotly_chart "Urban vs Rural Workforce Distribution") ;;
      ret ChartOnly
  end.

(** Lines 119-408, from the long table and the widget values. *)
Definition run (ctl : Controls) (long_data : list LongRow) : Script Dashboard :=
  let geo := geography ctl long_data in
  (if empty geo then show (st_warning no_data) ;; st_stop unit else ret tt) ;;
  let worker := by_worker ctl geo in
  let industry := by_industry ctl worker in
  let fv := with_value ctl industry in
  show (st_subheader "Key Workforce Indicators") ;;
  show (st_metric "Total Workers") ;;
  show (st_metric "Industries") ;;
  show (st_metric "States") ;;
  show (st_metric "Districts") ;;
  show (st_subheader "Industry-wise Workforce") ;;
  show (st_plotly_chart "Workforce by Industry") ;;
  show (st_subheader "Geography-wise Workforce") ;;
  show (st_plotly_chart (geo_title ctl)) ;;
  show (st_subheader "Industry vs Geography Heatmap") ;;
  show (st_plotly_chart "Industry-Geography Workforce Intensity") ;;
  m <- use_case_module ctl (fst fv) ;;
  show (st_download_button "filtered_workforce_data.csv") ;;
  show (st_subheader "Business Recommendations") ;;
  show st_markdown ;;
  show (st_info "This platform enables data-driven workforce planning, investment decisions, and inclusive policy formulation.") ;;
  ret {| filtered_data := fst fv;
         value_col := snd fv;
         industry_view := industry_df (snd fv) (fst fv);
         geography_view := geo_df ctl (snd fv) (fst fv);
         module_view := m |}.

(** ** Example tables *)

Definition example_long : list LongRow :=
  match reshape parse_decimal example_wide with
  | Some long => long
  | None => []
  end.

(** ** Vocabulary of the properties *)

(** The metadata of a melted row, from the name of its value column. *)
Definition token (k : nat) (variable : string) : option string :=
  nth_error (str_split "-" variable) k.

Definition with_metadata (m : MeltRow) : Row cell :=
  mk_row m
    (replace worker_type_map (token 0 (Variable_ m)))
    (token 1 (Variable_ m))
    (replace gender_map (token 2 (Variable_ m))).

Definition split_width (long : list MeltRow) : nat :=
  width (str_split_expand (map Variable_ long)).

Definition converts (parse_number : string -> option Q) (c : cell) : bool :=
  match to_numeric parse_number c with Some _ => true | None => false end.

(** A value column named [<WorkerClass>-<Area>-<Gender>] with a known worker
    class and a known gender word. *)
Definition conventional_name (c : string) : bool :=
  match str_split "-" c with
  | [w; _; g] =>
      str_in w ["Main_Workers"; "Marginal_Workers"]
      && str_in g ["Males"; "Females"; "Persons"]
  | _ => false
  end.

Definition follows_convention (data : DataFrame) : bool :=
  forallb conventional_name (worker_cols data).

(** Worker_Type and Gender inside their closed sets. *)
Definition closed_enums (C : Type) (r : Row C) : Prop :=
  In (Worker_Type r) [Some "Main"; Some "Marginal"]
  /\ In (Gender r) [Some "Male"; Some "Female"; Some "Total"].

Definition gaps_wide : DataFrame :=
  {| columns := ["State"; "Main_Workers-Rural-Males"; "Marginal_Workers-Urban-Persons"];
     rows := [[CStr "Kerala"; CStr "12"; CStr "n/a"];
              [CStr "Goa"; CNaN; CNum 7]] |}.

Definition odd_wide : DataFrame :=
  {| columns := ["State"; "Main_Workers_Other-Rural-Children"];
     rows := [[CStr "Kerala"; CNum 4]] |}.

(** [subseq l1 l2]: [l1] is [l2] with some rows left out, order kept. *)
Inductive subseq (A : Type) : list A -> list A -> Prop :=
| subseq_nil : subseq [] []
| subseq_skip (x : A) (l1 l2 : list A) : subseq l1 l2 -> subseq l1 (x :: l2)
| subseq_keep (x : A) (l1 l2 : list A) : subseq l1 l2 -> subseq (x :: l1) (x :: l2).

Definition in_state (s : string) (i : nat) (n : Q) : LongRow :=
  {| idx := i;
     ids := [("State", CStr s); ("District", CStr "Chennai");
             ("Industry_Category", CStr "Textiles")];
     Worker_Type := Some "Main"; Area := Some "Rural"; Gender := Some "Male";
     Count := n |}.

Definition example_controls : Controls :=
  {| use_case := DependencyRisk; view_level := DistrictWise;
     show_percentage := true;
     selected_states := [CStr "Tamilnadu"];
     district_choice := [CStr "Chennai"];
     worker_type := Some "Main"; area := Some "Rural"; gender := Some "Male";
     selected_clusters := [CStr "Textiles"] |}.

(** The same selection with every district, or every industry, unticked, and
    with no state ticked. *)
Definition no_district (ctl : Controls) : Controls :=
  {| use_case := use_case ctl; view_level := view_level ctl;
     show_percentage := show_percentage ctl;
     selected_states := selected_states ctl;
     district_choice := [];
     worker_type := worker_type ctl; area := area ctl; gender := gender ctl;
     selected_clusters := selected_clusters ctl |}.

Definition no_industry (ctl : Controls) : Controls :=
  {| use_case := use_case ctl; view_level := view_level ctl;
     show_percentage := show_percentage ctl;
     selected_states := selected_states ctl;
     district_choice := district_choice ctl;
     worker_type := worker_type ctl; area := area ctl; gender := gender ctl;
     selected_clusters := [] |}.

Definition no_state (ctl : Controls) : Controls :=
  {| use_case := use_case ctl; view_level := view_level ctl;
     show_percentage := show_percentage ctl;
     selected_states := [];
     district_choice := district_choice ctl;
     worker_type := worker_type ctl; area := area ctl; gender := gender ctl;
     selected_clusters := selected_clusters ctl |}.

(** Membership of a row in the group of key [k]. *)
Definition in_group (K R : Type) (eqb : K -> K -> bool) (key : R -> option K)
           (k : K) (r : R) : bool :=
  match key r with
  | Some k' => eqb k k'
  | None => false
  end.

Definition keyed (K R : Type) (key : R -> option K) (r : R) : bool :=
  match key r with Some _ => true | None => false end.

(** No two groups stand for the same key. *)
Fixpoint distinct_keys (K R : Type) (eqb : K -> K -> bool)
         (groups : list (K * list R)) : Prop :=
  match groups with
  | [] => True
  | g :: rest =>
      (forall h, In h rest -> eqb (fst g) (fst h) = false)
      /\ distinct_keys eqb rest
  end.

(** The rational behind a finite derived value. *)
Definition to_Q (v : fval) : Q :=
  match v with Fin q => q | _ => 0 end.

(** A filtered set with one row and nobody counted in it. *)
Definition zero_rows : list LongRow := [in_state "Tamilnadu" 0 0].

(** A row whose Industry_Category field was blank in the input. *)
Definition blank_industry : list LongRow :=
  [{| idx := 0;
      ids := [("State", CStr "Tamilnadu"); ("District", CStr "Chennai");
              ("Industry_Category", CNaN)];
      Worker_Type := Some "Main"; Area := Some "Rural"; Gender := Some "Male";
      Count := 5 |}].

(** The reading of "guarded" that asks least: a row with no industry is
    either absent from the view or scored NaN. *)
Definition zero_guarded (view : list InvestRow) : Prop :=
  forall x, In x view -> Industry_Count x = 0%nat -> Investment_Score x = NaN.

(** A filtered set with one row of fifty workers. *)
Definition fifty_rows : list LongRow := [in_state "Tamilnadu" 0 50].

(** The rows of a view, largest value first and NaN last. *)
Definition sorted_desc (K : Type) (view : list (K * fval)) : Prop :=
  StronglySorted (fun a b => desc_before (snd a) (snd b) = true) view.

(** Two industries of one district, 30 and 10 workers. *)
Definition two_industries : list LongRow :=
  [{| idx := 0;
      ids := [("State", CStr "Tamilnadu"); ("District", CStr "Chennai");
              ("Industry_Category", CStr "Textiles")];
      Worker_Type := Some "Main"; Area := Some "Rural"; Gender := Some "Male";
      Count := 30 |};
   {| idx := 1;
      ids := [("State", CStr "Tamilnadu"); ("District", CStr "Chennai");
              ("Industry_Category", CStr "Mining")];
      Worker_Type := Some "Main"; Area := Some "Rural"; Gender := Some "Male";
      Count := 10 |}].

(** The Share column of the rows of one district, before the threshold. *)
Definition shares_of (d : cell) (dep : list DepRow) : list fval :=
  map Share (filter (fun x => cell_eqb (dep_District x) d) dep).

(** The rational of a row's value. *)
Definition value_Q (vc : ValueCol) (r : FRow) : Q := to_Q (value vc r).

(** Two districts: 1000 workers in 2 industries, 300 workers in 3. *)
Definition in_district (d ind : string) (i : nat) (n : Q) : LongRow :=
  {| idx := i;
     ids := [("State", CStr "Tamilnadu"); ("District", CStr d);
             ("Industry_Category", CStr ind)];
     Worker_Type := Some "Main"; Area := Some "Rural"; Gender := Some "Male";
     Count := n |}.

Definition two_districts : list LongRow :=
  [in_district "South" "Textiles" 0 100; in_district "North" "Textiles" 1 600;
   in_district "South" "Mining" 2 100; in_district "North" "Mining" 3 400;
   in_district "South" "Retail" 4 100].

(** ** Normalize column names (line 29)

    Header names are taken to be ASCII: [str.strip()] removes the characters
    Python counts as white space, which below 128 are 9-13, 28-31 and 32. *)

Definition isspace (c : ascii) : bool :=
  let n := nat_of_ascii c in
  ((9 <=? n) && (n <=? 13) || (28 <=? n) && (n <=? 32))%nat.

Fixpoint lstrip (s : string) : string :=
  match s with
  | EmptyString => EmptyString
  | String c rest => if isspace c then lstrip rest else s
  end.

Fixpoint rstrip (s : string) : string :=
  match s with
  | EmptyString => EmptyString
  | String c rest =>
      match rstrip rest with
      | EmptyString => if isspace c then EmptyString else String c EmptyString
      | kept => String c kept
      end
  end.

Definition strip (s : string) : string := rstrip (lstrip s).

(** [str.replace(a, b)] for one-character [a] and [b]. *)
Fixpoint replace_char (a b : ascii) (s : string) : string :=
  match s with
  | EmptyString => EmptyString
  | String c rest =>
      String (if Ascii.eqb c a then b else c) (replace_char a b rest)
  end.

Definition normalize_name (c : string) : string :=
  replace_char " " "_" (strip c).

Definition normalize (data : DataFrame) : DataFrame :=
  {| columns := map normalize_name (columns data); rows := rows data |}.

(** A name that does not end, or start, with white space. *)
Fixpoint ends_clean (s : string) : bool :=
  match s with
  | EmptyString => true
  | String c EmptyString => negb (isspace c)
  | String _ rest => ends_clean rest
  end.

Definition starts_clean (s : string) : bool :=
  match s with
  | EmptyString => true
  | String c _ => negb (isspace c)
  end.

(** Occurrences of a character in a string. *)
Fixpoint count_char (a : ascii) (s : string) : nat :=
  match s with
  | EmptyString => 0
  | String c rest => (if Ascii.eqb c a then 1 else 0) + count_char a rest
  end.

(** ** The values behind the multiselect defaults (lines 104-112, 152-157)

    [sorted] arranges the distinct values; the widgets take that list both
    as options and as default. *)

Definition distinct_districts (ctl : Controls) (long : list LongRow) : list cell :=
  unique (filter notna (map District (by_state ctl long))).

Definition distinct_industries (fd : list LongRow) : list cell :=
  unique (map Industry_Category fd).

(** The filtered set of line 160 and the mask it amounts to. *)
Definition filtered (ctl : Controls) (long : list LongRow) : list LongRow :=
  by_industry ctl (by_worker ctl (geography ctl long)).

Definition district_pass (ctl : Controls) (r : LongRow) : bool :=
  match selected_districts ctl with
  | Some (d :: ds) => district_mask (d :: ds) r
  | Some [] | None => true
  end.

Definition all_masks (ctl : Controls) (r : LongRow) : bool :=
  state_mask ctl r && district_pass ctl r
  && worker_type_mask ctl r && area_mask ctl r && gender_mask ctl r
  && industry_mask ctl r.

(** ** KPI section (lines 180-183) *)

Record KPI : Type := {
  kpi_total_workers : Q;
  kpi_industries : nat;
  kpi_states : nat;
  kpi_districts : nat
}.

Definition kpis (fd : list FRow) : KPI :=
  {| kpi_total_workers := qsum (map (fun r => Count (base r)) fd);
     kpi_industries := nunique (map (fun r => Industry_Category (base r)) fd);
     kpi_states := nunique (map (fun r => State (base r)) fd);
     kpi_districts := nunique (map (fun r => District (base r)) fd) |}.

(** ** Gender and inclusion module (lines 307-315) *)

Definition gender_rows (ctl : Controls) (long : list LongRow) : list LongRow :=
  filter (fun r => state_mask ctl r && worker_type_mask ctl r) long.

Definition industry_gender_key (r : LongRow) : option (cell * string) :=
  match Gender r with
  | Some g => if notna (Industry_Category r) then Some (Industry_Category r, g) else None
  | None => None
  end.

Definition ig_eqb (a b : cell * string) : bool :=
  cell_eqb (fst a) (fst b) && String.eqb (snd a) (snd b).

Definition ig_leb (a b : cell * string) : bool :=
  if cell_eqb (fst a) (fst b) then String.leb (snd a) (snd b)
  else cell_leb (fst a) (fst b).

Definition gender_df (ctl : Controls) (long : list LongRow) : list (cell * string * Q) :=
  map (fun g => (fst g, qsum (map (@Count Q) (snd g))))
      (groupby ig_eqb ig_leb industry_gender_key (gender_rows ctl long)).

(** ** Urbanization and migration module (lines 354-368) *)

Definition ur_data (ctl : Controls) (long : list LongRow) : list LongRow :=
  by_district ctl
    (filter
       (fun r => state_mask ctl r && industry_mask ctl r
                 && worker_type_mask ctl r && gender_mask ctl r)
       long).


(** ** More vocabulary *)

Definition percent_controls : Controls :=
  {| use_case := GeneralOverview; view_level := StateWise;
     show_percentage := true; selected_states := [CStr "Tamilnadu"];
     district_choice := [];
     worker_type := Some "Main"; area := Some "Rural"; gender := Some "Male";
     selected_clusters := [CStr "Textiles"; CStr "Mining"] |}.

Definition statewise_controls : Controls :=
  {| use_case := InvestmentPlanning; view_level := StateWise;
     show_percentage := false; selected_states := [CStr "Tamilnadu"];
     district_choice := [];
     worker_type := Some "Main"; area := Some "Rural"; gender := Some "Male";
     selected_clusters := [CStr "Textiles"; CStr "Mining"] |}.

(** The key of the geography chart cannot be blank. *)
Definition geo_key_present (ctl : Controls) : Prop :=
  match view_level ctl with
  | StateWise => isin CNaN (selected_states ctl) = false
  | DistrictWise =>
      district_choice ctl <> [] /\ isin CNaN (district_choice ctl) = false
  end.


(** No two cells of the list are equal. *)
Fixpoint distinct_cells (l : list cell) : Prop :=
  match l with
  | [] => True
  | c :: rest => (forall d, In d rest -> cell_eqb c d = false) /\ distinct_cells rest
  end.

Definition nonneg_counts (fd : list LongRow) : Prop :=
  forall r, In r fd -> 0 <= Count r.

Definition spaced_wide : DataFrame :=
  {| columns := [" State "; "Industry Category"; "Main Workers-Rural-Males "];
     rows := [[CStr "Goa"; CStr "Mining"; CNum 9]] |}.

Definition mixed_districts : list LongRow :=
  [in_district "North" "Textiles" 0 600;
   {| idx := 1;
      ids := [("State", CStr "Tamilnadu"); ("District", CNaN);
              ("Industry_Category", CStr "Mining")];
      Worker_Type := Some "Main"; Area := Some "Urban"; Gender := Some "Male";
      Count := 40 |};
   in_district "South" "Retail" 2 100].

(** ** The dtype of the Count column

    [pd.to_numeric] leaves Count an int64 column when every melted cell is an
    integer and a float64 column otherwise; the dtype is that of the whole
    long table and is kept by every filter.  numpy adds int64 values modulo
    2^64, so the sum of an int64 column wraps silently.  [qsum] is the sum of
    a float64 column, and of an int64 column as long as the sum stays in
    range; [series_sum] is the sum at either dtype. *)

Inductive dtype : Type := int64 | float64.

Definition int64_min : Z := (- 2 ^ 63)%Z.
Definition int64_max : Z := (2 ^ 63 - 1)%Z.

Definition in_int64 (q : Q) : bool :=
  Qle_bool (inject_Z int64_min) q && Qle_bool q (inject_Z int64_max).

(** Two's-complement wrap-around of an integer that left the range. *)
Definition wrap_int64 (q : Q) : Q :=
  if in_int64 q then q
  else inject_Z ((Qfloor q + 2 ^ 63) mod 2 ^ 64 - 2 ^ 63)%Z.

Definition adjust (dt : dtype) (q : Q) : Q :=
  match dt with
  | int64 => wrap_int64 q
  | float64 => q
  end.

(** [Series.sum()] and the group sums of [groupby(...).sum()]. *)
Definition series_sum (dt : dtype) (l : list Q) : Q := adjust dt (qsum l).

(** The sum has not left the range of the dtype. *)
Definition fits (dt : dtype) (q : Q) : Prop :=
  match dt with
  | int64 => in_int64 q = true
  | float64 => True
  end.

(** Lines 165-167 at the dtype of Count. *)
Definition total_as (dt : dtype) (fd : list LongRow) : Q :=
  series_sum dt (map (@Count Q) fd).

Definition percentage_as (dt : dtype) (fd : list LongRow) : list FRow :=
  let total := total_as dt fd in
  map (fun r => {| base := r;
                   Value := Some (fmul (qdiv (Count r) total) (Fin 100)) |})
      fd.

(** Lines 264-279 at the dtype of Count. *)
Definition invest_agg_as (dt : dtype) (fd : list FRow) : list (cell * Q * nat) :=
  map (fun g => (fst g,
                 series_sum dt (map (fun r => Count (base r)) (snd g)),
                 nunique (map (fun r => Industry_Category (base r)) (snd g))))
      (cell_groups (fun r => District (base r)) fd).

Definition invest_df_as (dt : dtype) (fd : list FRow) : list InvestRow :=
  map (fun x =>
         match x with
         | (d, total, n) =>
             {| inv_District := d; Total_Workers := total; Industry_Count := n;
                Investment_Score := qdiv total (inject_Z (Z.of_nat n)) |}
         end)
      (invest_agg_as dt fd).

Definition invest_shown_as (dt : dtype) (fd : list FRow) : list InvestRow :=
  sort_by (fun a b => desc_before (Investment_Score a) (Investment_Score b))
          (invest_df_as dt fd).

(** Lines 331-340 at the dtype of Count. *)
Definition district_industry_as (dt : dtype) (fd : list FRow) : list (cell * cell * Q) :=
  map (fun g => (fst g, series_sum dt (map (fun r => Count (base r)) (snd g))))
      (groupby pair_eqb pair_leb district_industry_key fd).

Definition district_total_as (dt : dtype) (d : cell) (counts : list (cell * cell * Q)) : Q :=
  series_sum dt (map snd (filter (fun x => cell_eqb (fst (fst x)) d) counts)).

Definition dep_df_as (dt : dtype) (fd : list FRow) : list DepRow :=
  let counts := district_industry_as dt fd in
  map (fun x =>
         {| dep_District := fst (fst x); dep_Industry := snd (fst x);
            dep_Count := snd x;
            Share := qdiv (snd x) (district_total_as dt (fst (fst x)) counts) |})
      counts.

Definition risk_df_as (dt : dtype) (fd : list FRow) : list DepRow :=
  filter (fun x => fgt (Share x) (6 # 10)) (dep_df_as dt fd).

(** Lines 364-368 at the dtype of Count. *)
Definition ur_df_as (dt : dtype) (ctl : Controls) (long : list LongRow) : list (string * Q) :=
  map (fun g => (fst g, series_sum dt (map (@Count Q) (snd g))))
      (groupby String.eqb String.leb (@Area Q) (ur_data ctl long)).

(** The sums behind the shares of district [d] have not wrapped: its group
    sums and its total. *)
Definition district_fits (dt : dtype) (fd : list FRow) (d : cell) : Prop :=
  (forall x, In x (district_industry fd) ->
             cell_eqb (fst (fst x)) d = true -> fits dt (snd x))
  /\ fits dt (district_total d (district_industry fd)).

(** Three rows of one district whose counts are 2^62, 2^62 and 1. *)
Definition huge_rows : list LongRow :=
  [in_district "North" "Textiles" 0 (inject_Z (2 ^ 62));
   in_district "North" "Mining" 1 (inject_Z (2 ^ 62));
   in_district "North" "Retail" 2 1].

(** A long table with Rural and Urban rows of two worker types. *)
Definition area_row (w a : string) (i : nat) (n : Q) : LongRow :=
  {| idx := i;
     ids := [("State", CStr "Tamilnadu"); ("District", CStr "Chennai");
             ("Industry_Category", CStr "Textiles")];
     Worker_Type := Some w; Area := Some a; Gender := Some "Male";
     Count := n |}.

Definition area_rows : list LongRow :=
  [area_row "Main" "Rural" 0 11; area_row "Marginal" "Rural" 1 5;
   area_row "Main" "Urban" 2 22].

(** * Properties *)

Unset Implicit Arguments.

(** ** Worked examples *)

Example reshape_example :
  reshape parse_decimal example_wide
  = Some [ {| idx := 0;
              ids := [("State", CStr "Tamilnadu"); ("District", CStr "Chennai");
                      ("Industry_Category", CStr "Textiles")];
              Worker_Type := Some "Main"; Area := Some "Rural";
              Gender := Some "Male"; Count := 100 |};
           {| idx := 1;
              ids := [("State", CStr "Tamilnadu"); ("District", CStr "Chennai");
                      ("Industry_Category", CStr "Textiles")];
              Worker_Type := Some "Main"; Area := Some "Urban";
              Gender := Some "Female"; Count := 50 |} ].
Proof. reflexivity. Qed.

Example filter_example :
  by_worker example_controls (geography example_controls example_long)
  = [in_state "Tamilnadu" 0 100]
  /\ industry_df ColCount
       (plain (by_industry example_controls
                 (by_worker example_controls
                    (geography example_controls example_long))))
     = [(CStr "Textiles", Fin 100)].
Proof. split; reflexivity. Qed.

Example investment_example :
  map (fun x => (inv_District x, Total_Workers x, Industry_Count x))
      (invest_shown (plain two_districts))
  = [(CStr "North", 1000, 2%nat); (CStr "South", 300, 3%nat)]
  /\ Forall2 (fun x score => feq (Investment_Score x) (Fin score))
              (invest_shown (plain two_districts)) [500; 100].
Proof.
  split; [reflexivity|].
  repeat constructor.
Qed.

(** ** The reshaper *)

Lemma length_number_from (n : nat) (l : list (record * string * cell)) :
  List.length (number_from n l) = List.length l.
Proof.
  revert n; induction l as [|[[i v] c] l IH]; intros n; simpl; auto.
Qed.

Lemma length_flat_map_const (A B : Type) (f : A -> list B) (k : nat) (l : list A) :
  (forall a, List.length (f a) = k) ->
  List.length (flat_map f l) = (List.length l * k)%nat.
Proof.
  intros Hf; induction l as [|a l IH]; simpl; auto.
  rewrite length_app, Hf, IH; reflexivity.
Qed.

(** [melt] emits one record per input row and value column. *)
Lemma length_melt (data : DataFrame) (id_vars value_vars : list string) :
  List.length (melt data id_vars value_vars)
  = (List.length (rows data) * List.length value_vars)%nat.
Proof.
  unfold melt, records.
  rewrite length_number_from.
  rewrite length_flat_map_const with (k := List.length (rows data)).
  - apply Nat.mul_comm.
  - intros v; now rewrite !length_map.
Qed.

Lemma Variable_number_from (n : nat) (l : list (record * string * cell)) :
  map Variable_ (number_from n l) = map (fun x => snd (fst x)) l.
Proof.
  revert n; induction l as [|[[i v] c] l IH]; intros n; simpl; auto.
  now rewrite IH.
Qed.

(** The rows of the melted table carry the names of the value columns. *)
Lemma Variable_melt (data : DataFrame) (id_vars value_vars : list string) (m : MeltRow) :
  In m (melt data id_vars value_vars) -> In (Variable_ m) value_vars.
Proof.
  intros Hm.
  apply (in_map Variable_) in Hm.
  unfold melt in Hm; rewrite Variable_number_from in Hm.
  apply in_map_iff in Hm as [[[i v] c] [Hv Hin]]; simpl in Hv.
  apply in_flat_map in Hin as [w [Hw Hin]].
  apply in_map_iff in Hin as [r [Hr _]].
  inversion Hr; subst; assumption.
Qed.

Lemma zip_rows_map (f g h : MeltRow -> option string) (ms : list MeltRow) :
  zip_rows ms (map f ms) (map g ms) (map h ms)
  = map (fun m => mk_row m (f m) (g m) (h m)) ms.
Proof.
  induction ms as [|m ms IH]; simpl; auto.
  now rewrite IH.
Qed.

(** [split_metadata] fails exactly when no column name has three tokens, and
    otherwise decorates every row with the tokens of its own column name. *)
Lemma split_metadata_eq (long : list MeltRow) :
  split_metadata long
  = if (3 <=? split_width long)%nat then Some (map with_metadata long) else None.
Proof.
  unfold split_metadata, split_width, getitem.
  set (e := str_split_expand (map Variable_ long)).
  assert (Hparts : parts e = map (fun m => str_split "-" (Variable_ m)) long).
  { unfold e, str_split_expand; simpl. now rewrite map_map. }
  destruct (3 <=? width e)%nat eqn:Hw.
  - apply Nat.leb_le in Hw.
    replace (0 <? width e)%nat with true by (symmetry; apply Nat.ltb_lt; lia).
    replace (1 <? width e)%nat with true by (symmetry; apply Nat.ltb_lt; lia).
    replace (2 <? width e)%nat with true by (symmetry; apply Nat.ltb_lt; lia).
    rewrite Hparts, !map_map.
    f_equal.
    apply (zip_rows_map
             (fun m => replace worker_type_map (token 0 (Variable_ m)))
             (fun m => token 1 (Variable_ m))
             (fun m => replace gender_map (token 2 (Variable_ m)))).
  - apply Nat.leb_gt in Hw.
    destruct (0 <? width e)%nat; [|reflexivity].
    destruct (1 <? width e)%nat; [|reflexivity].
    replace (2 <? width e)%nat with false by (symmetry; apply Nat.ltb_ge; lia).
    reflexivity.
Qed.

Lemma list_max_ge (l : list nat) (n : nat) : In n l -> (n <= list_max l)%nat.
Proof.
  induction l as [|a l IH]; simpl; [easy|].
  intros [->|H]; [lia|]. specialize (IH H). lia.
Qed.

Lemma split_width_ge (long : list MeltRow) (m : MeltRow) :
  In m long ->
  (List.length (str_split "-" (Variable_ m)) <= split_width long)%nat.
Proof.
  intros Hm. unfold split_width, str_split_expand; simpl.
  apply list_max_ge.
  rewrite map_map. apply in_map_iff. exists (Variable_ m); split; auto.
  now apply in_map.
Qed.

Section ReshapeFacts.

Variable parse_number : string -> option Q.

Lemma length_dropna_count (long : list (Row cell)) :
  List.length (dropna_count (map (coerce_count parse_number) long))
  = List.length (filter (fun r => converts parse_number (Count r)) long).
Proof.
  induction long as [|r long IH]; simpl; auto.
  unfold converts at 1.
  destruct (to_numeric parse_number (Count r)); simpl; now rewrite IH.
Qed.

Lemma length_filter_split (A : Type) (p : A -> bool) (l : list A) :
  List.length (filter p l)
  = (List.length l - List.length (filter (fun a => negb (p a)) l))%nat.
Proof.
  induction l as [|a l IH]; [reflexivity|].
  pose proof (filter_length_le (fun a => negb (p a)) l).
  cbn [filter]. destruct (p a); cbn [negb List.length]; lia.
Qed.

Lemma filter_map_comm (A B : Type) (f : A -> B) (p : B -> bool) (l : list A) :
  filter p (map f l) = map f (filter (fun a => p (f a)) l).
Proof.
  induction l as [|a l IH]; simpl; auto.
  destruct (p (f a)); simpl; now rewrite IH.
Qed.

(** Row count after lines 68-69, whatever metadata the rows were given. *)
Lemma dropna_length (data : DataFrame) (w a g : MeltRow -> option string) :
  List.length
    (dropna_count
       (map (coerce_count parse_number)
          (map (fun m => mk_row m (w m) (a m) (g m))
             (melt data (id_cols data) (worker_cols data)))))
  = (List.length (rows data) * List.length (worker_cols data)
     - unparseable parse_number data)%nat.
Proof.
  unfold unparseable.
  set (ms := melt data (id_cols data) (worker_cols data)).
  rewrite length_dropna_count, filter_map_comm, length_map.
  rewrite length_filter_split.
  unfold ms at 1; rewrite length_melt.
  f_equal. f_equal.
  apply filter_ext; intros m. unfold converts; simpl.
  now destruct (to_numeric parse_number (m_Count m)).
Qed.

(** Row count of the long table whenever the metadata split goes through. *)
Lemma reshape_length (data : DataFrame) (long : list (Row Q)) :
  reshape parse_number data = Some long ->
  List.length long
  = (List.length (rows data) * List.length (worker_cols data)
     - unparseable parse_number data)%nat.
Proof.
  unfold reshape. rewrite split_metadata_eq.
  destruct (3 <=? split_width _)%nat; [|discriminate].
  intros H; inversion H; subst; clear H.
  apply (dropna_length data
           (fun m => replace worker_type_map (token 0 (Variable_ m)))
           (fun m => token 1 (Variable_ m))
           (fun m => replace gender_map (token 2 (Variable_ m)))).
Qed.

(** The reshaper returns a table as soon as one value column has a name of
    three tokens and the input has a row. *)
Lemma reshape_returns (data : DataFrame) (c : string) :
  rows data <> [] ->
  In c (worker_cols data) ->
  (3 <= List.length (str_split "-" c))%nat ->
  exists long, reshape parse_number data = Some long.
Proof.
  intros Hrows Hc Hlen.
  unfold reshape. rewrite split_metadata_eq.
  set (ms := melt data (id_cols data) (worker_cols data)).
  assert (Hm : exists m, In m ms /\ Variable_ m = c).
  { assert (Hin : In c (map Variable_ ms)).
    { unfold ms, melt. rewrite Variable_number_from.
      destruct (rows data) as [|r rs] eqn:Hr; [congruence|].
      apply in_map_iff.
      exists (select (id_cols data) (combine (columns data) r), c,
              get c (combine (columns data) r)).
      split; [reflexivity|].
      apply in_flat_map. exists c; split; [assumption|].
      unfold records; rewrite Hr; simpl. now left. }
    apply in_map_iff in Hin as [m [Hv Hin]]. now exists m. }
  destruct Hm as [m [Hin Hv]].
  pose proof (split_width_ge ms m Hin) as Hw. rewrite Hv in Hw.
  replace (3 <=? split_width ms)%nat with true
    by (symmetry; apply Nat.leb_le; lia).
  eexists; reflexivity.
Qed.

End ReshapeFacts.

Lemma str_in_In (s : string) (l : list string) : str_in s l = true -> In s l.
Proof.
  unfold str_in. intros H. apply existsb_exists in H as [x [Hx Heq]].
  apply String.eqb_eq in Heq. now subst.
Qed.

Lemma conventional_tokens (c : string) :
  conventional_name c = true ->
  In (replace worker_type_map (token 0 c)) [Some "Main"; Some "Marginal"]
  /\ In (replace gender_map (token 2 c)) [Some "Male"; Some "Female"; Some "Total"]
  /\ (3 <= List.length (str_split "-" c))%nat.
Proof.
  unfold conventional_name, token.
  destruct (str_split "-" c) as [|w [|a [|g [|x l]]]]; try discriminate.
  intros H. apply andb_prop in H as [Hw Hg].
  apply str_in_In in Hw. apply str_in_In in Hg.
  simpl in Hw, Hg.
  repeat split.
  - destruct Hw as [<-|[<-|[]]]; simpl; auto.
  - destruct Hg as [<-|[<-|[<-|[]]]]; simpl; auto.
  - simpl; lia.
Qed.

Lemma in_dropna_count (parse_number : string -> option Q)
      (long : list (Row cell)) (r : Row Q) :
  In r (dropna_count (map (coerce_count parse_number) long)) ->
  exists r', In r' long
             /\ idx r = idx r' /\ ids r = ids r'
             /\ Worker_Type r = Worker_Type r' /\ Area r = Area r'
             /\ Gender r = Gender r'
             /\ to_numeric parse_number (Count r') = Some (Count r).
Proof.
  unfold dropna_count. intros H.
  apply in_flat_map in H as [x [Hx Hr]].
  apply in_map_iff in Hx as [r' [<- Hin]].
  simpl in Hr.
  destruct (to_numeric parse_number (Count r')) eqn:E; [|contradiction].
  destruct Hr as [<-|[]]. exists r'; simpl; auto 10.
Qed.

(** Every row of the long table takes its metadata from the tokens of the
    value column it was melted from. *)
Lemma reshape_metadata (parse_number : string -> option Q)
      (data : DataFrame) (long : list (Row Q)) (r : Row Q) :
  reshape parse_number data = Some long ->
  In r long ->
  exists c, In c (worker_cols data)
            /\ Worker_Type r = replace worker_type_map (token 0 c)
            /\ Area r = token 1 c
            /\ Gender r = replace gender_map (token 2 c).
Proof.
  unfold reshape. rewrite split_metadata_eq.
  set (ms := melt data (id_cols data) (worker_cols data)).
  destruct (3 <=? split_width ms)%nat; [|discriminate].
  intros H Hr; inversion H; subst; clear H.
  apply in_dropna_count in Hr as [r' [Hin [_ [_ [Hw [Ha [Hg _]]]]]]].
  apply in_map_iff in Hin as [m [<- Hm]].
  exists (Variable_ m). split.
  - now apply (Variable_melt data (id_cols data)).
  - rewrite Hw, Ha, Hg. simpl. auto.
Qed.

(** C3: the long table has one row per input row and value column, less
    the emitted records whose Count does not convert to a number; those are
    left out and the reshaper still returns its table. *)
Theorem reshape_row_count (parse_number : string -> option Q) (data : DataFrame) :
  List.length (melt data (id_cols data) (worker_cols data))
  = (List.length (rows data) * List.length (worker_cols data))%nat
  /\ (forall w a g : MeltRow -> option string,
         List.length
           (dropna_count
              (map (coerce_count parse_number)
                 (map (fun m => mk_row m (w m) (a m) (g m))
                    (melt data (id_cols data) (worker_cols data)))))
         = (List.length (rows data) * List.length (worker_cols data)
            - unparseable parse_number data)%nat)
  /\ (forall long,
         reshape parse_number data = Some long ->
         List.length long
         = (List.length (rows data) * List.length (worker_cols data)
            - unparseable parse_number data)%nat)
  /\ (forall c,
         rows data <> [] ->
         In c (worker_cols data) ->
         (3 <= List.length (str_split "-" c))%nat ->
         exists long, reshape parse_number data = Some long).
Proof.
  split; [apply length_melt|].
  split; [intros w a g; apply dropna_length|].
  split.
  - intros long; apply reshape_length.
  - intros c; apply reshape_returns.
Qed.

Lemma reshape_row_count_witness :
  exists long,
    reshape parse_decimal gaps_wide = Some long
    /\ List.length long = (2 * 2 - 2)%nat
    /\ unparseable parse_decimal gaps_wide = 2%nat.
Proof.
  destruct (reshape_row_count parse_decimal gaps_wide) as [_ [_ [Hlen Hret]]].
  destruct (Hret "Main_Workers-Rural-Males") as [long Hlong].
  - discriminate.
  - simpl; auto.
  - simpl; lia.
  - exists long. split; [exact Hlong|]. split; [|reflexivity].
    exact (Hlen long Hlong).
Defined.

(** C2, as stated, fails: a value column whose tokens are not the known
    ones reaches the long table with those tokens as Worker_Type and Gender. *)
Lemma unrecognized_tokens_pass_through :
  exists long r,
    reshape parse_decimal odd_wide = Some long
    /\ In r long
    /\ Worker_Type r = Some "Main_Workers_Other"
    /\ Gender r = Some "Children"
    /\ ~ closed_enums r.
Proof.
  eexists; eexists. split; [reflexivity|].
  split; [left; reflexivity|].
  split; [reflexivity|]. split; [reflexivity|].
  intros [Hw _]. simpl in Hw.
  destruct Hw as [H|[H|[]]]; discriminate.
Qed.

(** C2 (amended): when every value column follows the naming convention,
    every row of the long table has Worker_Type in {Main, Marginal} and Gender
    in {Male, Female, Total}; in general a row carries the replaced tokens of
    its column name, unknown tokens unchanged. *)
Theorem reshape_closed_enums (parse_number : string -> option Q) (data : DataFrame) :
  (forall long r,
      reshape parse_number data = Some long ->
      In r long ->
      exists c, In c (worker_cols data)
                /\ Worker_Type r = replace worker_type_map (token 0 c)
                /\ Area r = token 1 c
                /\ Gender r = replace gender_map (token 2 c))
  /\ (forall s, lookup_str worker_type_map s = None ->
                replace worker_type_map (Some s) = Some s)
  /\ (forall s, lookup_str gender_map s = None ->
                replace gender_map (Some s) = Some s)
  /\ (follows_convention data = true ->
      (forall long,
          reshape parse_number data = Some long ->
          Forall (@closed_enums Q) long)
      /\ (rows data <> [] -> worker_cols data <> [] ->
          exists long, reshape parse_number data = Some long)).
Proof.
  split; [intros long r; apply reshape_metadata|].
  split; [intros s H; unfold replace; now rewrite H|].
  split; [intros s H; unfold replace; now rewrite H|].
  intros Hconv. unfold follows_convention in Hconv.
  rewrite forallb_forall in Hconv.
  split.
  - intros long Hlong. apply Forall_forall. intros r Hr.
    destruct (reshape_metadata parse_number data long r Hlong Hr)
      as [c [Hc [Hw [_ Hg]]]].
    destruct (conventional_tokens c (Hconv c Hc)) as [Hw' [Hg' _]].
    unfold closed_enums. rewrite Hw, Hg. auto.
  - intros Hrows Hcols.
    destruct (worker_cols data) as [|c cs] eqn:E; [congruence|].
    apply (reshape_returns parse_number data c Hrows).
    + rewrite E; now left.
    + apply conventional_tokens, Hconv. now left.
Qed.

Lemma reshape_closed_enums_witness :
  follows_convention example_wide = true
  /\ exists long, reshape parse_decimal example_wide = Some long
                  /\ Forall (@closed_enums Q) long.
Proof.
  split; [reflexivity|].
  destruct (reshape_closed_enums parse_decimal example_wide)
    as [_ [_ [_ Hconv]]].
  destruct (Hconv eq_refl) as [Hall Hret].
  destruct Hret as [long Hlong].
  - discriminate.
  - discriminate.
  - exists long. split; [exact Hlong|]. exact (Hall long Hlong).
Defined.

(** ** The filter chain *)

Lemma subseq_refl (A : Type) (l : list A) : subseq l l.
Proof. induction l; [apply subseq_nil|now apply subseq_keep]. Qed.

Lemma subseq_filter (A : Type) (p : A -> bool) (l : list A) :
  subseq (filter p l) l.
Proof.
  induction l as [|a l IH]; simpl; [apply subseq_nil|].
  destruct (p a); [now apply subseq_keep|now apply subseq_skip].
Qed.

Lemma subseq_length (A : Type) (l1 l2 : list A) :
  subseq l1 l2 -> (List.length l1 <= List.length l2)%nat.
Proof. induction 1; simpl; lia. Qed.

Lemma subseq_In (A : Type) (l1 l2 : list A) (x : A) :
  subseq l1 l2 -> In x l1 -> In x l2.
Proof.
  induction 1; simpl; auto.
  intros [->|H1]; auto.
Qed.

Lemma filter_filter_and (A : Type) (p q : A -> bool) (l : list A) :
  filter q (filter p l) = filter (fun a => p a && q a) l.
Proof.
  induction l as [|a l IH]; simpl; auto.
  destruct (p a); simpl; [destruct (q a)|]; now rewrite IH.
Qed.

Lemma apply_stage_subseq (s : FilterStage) (ctl : Controls) (ws : list LongRow) :
  subseq (apply_stage s ctl ws) ws.
Proof.
  destruct s; simpl; try apply subseq_filter.
  unfold by_district.
  destruct (selected_districts ctl) as [[|d ds]|];
    auto using subseq_refl, subseq_filter.
Qed.

(** C5: each of the six filters returns a sub-list of the rows it is given
    (so never more rows), made of rows of its input as they were; and the
    filtered set of the script is the six filters applied in turn. *)
Theorem filter_chain_narrowing (ctl : Controls) :
  (forall s ws,
      subseq (apply_stage s ctl ws) ws
      /\ (List.length (apply_stage s ctl ws) <= List.length ws)%nat
      /\ (forall r, In r (apply_stage s ctl ws) ->
                    exists r', In r' ws /\ r' = r
                               /\ idx r' = idx r /\ Count r' = Count r))
  /\ (forall long,
         by_industry ctl (by_worker ctl (geography ctl long))
         = apply_stage IndustryStage ctl
             (apply_stage GenderStage ctl
                (apply_stage AreaStage ctl
                   (apply_stage WorkerTypeStage ctl
                      (apply_stage DistrictStage ctl
                         (apply_stage StateStage ctl long)))))).
Proof.
  split.
  - intros s ws. pose proof (apply_stage_subseq s ctl ws) as H.
    split; [exact H|]. split; [now apply subseq_length|].
    intros r Hr. exists r. split; [now apply (subseq_In _ _ _ r H)|auto].
  - intros long. cbn [apply_stage]. unfold by_worker, geography.
    rewrite !filter_filter_and. unfold by_industry. f_equal.
    apply filter_ext. intros r. now rewrite andb_assoc.
Qed.

(** C9: without a district selection (none in the state-wise view, an
    empty one in the district-wise view) the district filter is not applied
    and the set stays the state-filtered one; applied to an empty selection
    it would have left nothing. *)
Theorem district_filter_skipped (ctl : Controls) (long : list LongRow) :
  (view_level ctl = StateWise ->
   selected_districts ctl = None /\ geography ctl long = by_state ctl long)
  /\ (view_level ctl = DistrictWise -> district_choice ctl = [] ->
      geography ctl long = by_state ctl long)
  /\ (view_level ctl = DistrictWise -> district_choice ctl <> [] ->
      geography ctl long
      = filter (district_mask (district_choice ctl)) (by_state ctl long))
  /\ filter (district_mask []) (by_state ctl long) = [].
Proof.
  unfold geography, by_district, selected_districts.
  repeat split.
  - now rewrite H.
  - now rewrite H.
  - intros Hv Hd. now rewrite Hv, Hd.
  - intros Hv Hd. rewrite Hv.
    destruct (district_choice ctl); [congruence|reflexivity].
  - induction (by_state ctl long) as [|r l IH]; simpl; auto.
Qed.

Lemma district_filter_skipped_witness :
  geography (no_district example_controls)
            [in_state "Tamilnadu" 0 100; in_state "Kerala" 1 50]
  = [in_state "Tamilnadu" 0 100].
Proof.
  destruct (district_filter_skipped (no_district example_controls)
              [in_state "Tamilnadu" 0 100; in_state "Kerala" 1 50])
    as [_ [H _]].
  rewrite (H eq_refl eq_refl). reflexivity.
Defined.

Lemma run_stops (ctl : Controls) (long : list LongRow) :
  geography ctl long = [] -> run ctl long = (None, [st_warning no_data]).
Proof.
  intros H. unfold run. rewrite H. reflexivity.
Qed.

Lemma run_continues (ctl : Controls) (long : list LongRow) :
  geography ctl long <> [] ->
  exists m out,
    let fv := with_value ctl (by_industry ctl (by_worker ctl (geography ctl long))) in
    run ctl long
    = (Some {| filtered_data := fst fv; value_col := snd fv;
               industry_view := industry_df (snd fv) (fst fv);
               geography_view := geo_df ctl (snd fv) (fst fv);
               module_view := m |}, out)
    /\ ~ In (st_warning no_data) out.
Proof.
  intros H. unfold run, use_case_module.
  destruct (geography ctl long) as [|r rs] eqn:E; [congruence|].
  cbn [empty].
  destruct (use_case ctl); cbn [bind show ret app];
    (eexists; eexists; split; [reflexivity|]);
    cbn [In]; intuition discriminate.
Qed.

(** C4: an empty set after the geography filter ends the run with the
    warning and nothing else: no table is returned and nothing further is put
    on the page; a non-empty one lets the run go on to the tables. *)
Theorem no_data_short_circuit (ctl : Controls) (long : list LongRow) :
  (geography ctl long = [] ->
   run ctl long = (None, [st_warning no_data]))
  /\ (geography ctl long <> [] ->
      exists d out, run ctl long = (Some d, out)).
Proof.
  split; [apply run_stops|].
  intros H. destruct (run_continues ctl long H) as [m [out [Hrun _]]].
  eexists; eexists; exact Hrun.
Qed.

Lemma no_data_short_circuit_witness :
  run (no_state example_controls) example_long = (None, [st_warning no_data]).
Proof.
  destruct (no_data_short_circuit (no_state example_controls) example_long)
    as [H _].
  apply H. reflexivity.
Defined.

(** ** Sorting *)

Section SortFacts.

Variable A : Type.
Variable before : A -> A -> bool.

Lemma insert_by_perm (x : A) (l : list A) :
  Permutation (insert_by before x l) (x :: l).
Proof.
  induction l as [|y l IH]; simpl; auto.
  destruct (before x y); auto.
  rewrite IH. apply perm_swap.
Qed.

Lemma sort_by_perm (l : list A) : Permutation (sort_by before l) l.
Proof.
  induction l as [|x l IH]; simpl; auto.
  rewrite insert_by_perm. now constructor.
Qed.

Hypothesis before_total : forall x y, before x y = false -> before y x = true.
Hypothesis before_trans :
  forall x y z, before x y = true -> before y z = true -> before x z = true.

Lemma insert_by_sorted (x : A) (l : list A) :
  StronglySorted (fun a b => before a b = true) l ->
  StronglySorted (fun a b => before a b = true) (insert_by before x l).
Proof.
  induction 1 as [|y l Hs IH Hall]; simpl.
  - repeat constructor.
  - destruct (before x y) eqn:E.
    + constructor; [now constructor|].
      constructor; [assumption|].
      eapply Forall_impl; [|exact Hall].
      intros z Hz; simpl in Hz. now apply before_trans with y.
    + constructor; [assumption|].
      apply (Permutation_Forall (Permutation_sym (insert_by_perm x l))).
      constructor; auto.
Qed.

Lemma sort_by_sorted (l : list A) :
  StronglySorted (fun a b => before a b = true) (sort_by before l).
Proof.
  induction l as [|x l IH]; simpl; [constructor|].
  now apply insert_by_sorted.
Qed.

End SortFacts.

(** ** Grouping *)

Lemma filter_none (A : Type) (p : A -> bool) (l : list A) :
  (forall x, In x l -> p x = false) -> filter p l = [].
Proof.
  induction l as [|a l IH]; simpl; auto.
  intros H. rewrite (H a) by auto. apply IH. auto.
Qed.

Section GroupFacts.

Variables K R : Type.
Variable eqb : K -> K -> bool.
Variable key : R -> option K.

Hypothesis eqb_refl : forall k, eqb k k = true.
Hypothesis eqb_sym : forall k k', eqb k k' = eqb k' k.
Hypothesis eqb_trans :
  forall a b c, eqb a b = true -> eqb b c = true -> eqb a c = true.

Lemma add_to_group_perm (k : K) (r : R) (groups : list (K * list R)) :
  Permutation (flat_map snd (add_to_group eqb k r groups))
              (r :: flat_map snd groups).
Proof.
  induction groups as [|[k' rs] groups IH]; simpl; auto.
  destruct (eqb k' k); simpl; auto.
  rewrite IH. symmetry. apply Permutation_middle.
Qed.

(** Grouping keeps every row that has a key, once. *)
Lemma collect_perm (rows : list R) :
  Permutation (flat_map snd (collect eqb key rows)) (filter (keyed key) rows).
Proof.
  induction rows as [|r rows IH]; simpl; auto.
  unfold keyed at 1. destruct (key r) as [k|]; auto.
  rewrite add_to_group_perm. now constructor.
Qed.

Lemma add_to_group_cases (k : K) (r : R) (groups : list (K * list R))
      (k' : K) (rs' : list R) :
  distinct_keys eqb groups ->
  In (k', rs') (add_to_group eqb k r groups) ->
  (In (k', rs') groups /\ eqb k' k = false)
  \/ (exists rs, rs' = r :: rs /\ In (k', rs) groups /\ eqb k' k = true)
  \/ (k' = k /\ rs' = [r] /\ forall g, In g groups -> eqb (fst g) k = false).
Proof.
  induction groups as [|[k0 rs0] groups IH]; simpl.
  - intros _ [H|[]]. inversion H; subst. right; right. repeat split; tauto.
  - intros [Hhead Hrest].
    destruct (eqb k0 k) eqn:E; simpl.
    + intros [H|H].
      * inversion H; subst. right; left. exists rs0. auto.
      * left. split; [now right|].
        specialize (Hhead _ H); simpl in Hhead.
        destruct (eqb k' k) eqn:E'; [|reflexivity].
        rewrite eqb_sym in E'.
        now rewrite (eqb_trans k0 k k' E E') in Hhead.
    + intros [H|H].
      * inversion H; subst. left. split; [now left|assumption].
      * destruct (IH Hrest H) as [[Hin Hk]|[[rs [-> [Hin Hk]]]|[-> [-> Hall]]]].
        -- left; auto.
        -- right; left. exists rs; auto.
        -- right; right. repeat split; auto.
           intros g [<-|Hg]; simpl; auto.
Qed.

Lemma add_to_group_keys (k : K) (r : R) (groups : list (K * list R))
      (g : K * list R) :
  In g (add_to_group eqb k r groups) ->
  (exists h, In h groups /\ fst h = fst g) \/ fst g = k.
Proof.
  induction groups as [|[k0 rs0] groups IH]; simpl.
  - intros [<-|[]]; auto.
  - destruct (eqb k0 k); simpl.
    + intros [<-|H]; left; [exists (k0, rs0)|exists g]; auto.
    + intros [<-|H]; [left; exists (k0, rs0); auto|].
      destruct (IH H) as [[h [Hh Hk]]|Hk]; auto.
      left; exists h; auto.
Qed.

Lemma add_to_group_distinct (k : K) (r : R) (groups : list (K * list R)) :
  distinct_keys eqb groups -> distinct_keys eqb (add_to_group eqb k r groups).
Proof.
  induction groups as [|[k0 rs0] groups IH]; simpl.
  - intros _; split; [intros h []|exact I].
  - intros [Hhead Hrest].
    destruct (eqb k0 k) eqn:E; simpl.
    + split; assumption.
    + split; [|auto].
      intros h Hh. destruct (add_to_group_keys k r groups h Hh) as [[h' [Hin Hk]]|Hk].
      * rewrite <- Hk. now apply Hhead.
      * now rewrite Hk.
Qed.

Lemma add_to_group_covers (k : K) (r : R) (groups : list (K * list R)) :
  (exists g, In g (add_to_group eqb k r groups) /\ eqb (fst g) k = true)
  /\ (forall h, In h groups ->
                exists g, In g (add_to_group eqb k r groups) /\ fst g = fst h).
Proof.
  induction groups as [|[k0 rs0] groups [IHk IHg]]; simpl.
  - split; [exists (k, [r]); simpl; auto|intros h []].
  - destruct (eqb k0 k) eqn:E; simpl.
    + split; [exists (k0, r :: rs0); simpl; auto|].
      intros h [<-|Hh]; [exists (k0, r :: rs0)|exists h]; simpl; auto.
    + split.
      * destruct IHk as [g [Hg Hk]]. exists g; auto.
      * intros h [<-|Hh]; [exists (k0, rs0); simpl; auto|].
        destruct (IHg h Hh) as [g [Hg Hk]]. exists g; auto.
Qed.

(** The groups built from [rows]: distinct keys, each with exactly its rows,
    and a group for every key that occurs. *)
Lemma collect_spec (rows : list R) :
  distinct_keys eqb (collect eqb key rows)
  /\ (forall k rs, In (k, rs) (collect eqb key rows) ->
                   rs = filter (in_group eqb key k) rows /\ rs <> [])
  /\ (forall r k, In r rows -> key r = Some k ->
                  exists g, In g (collect eqb key rows) /\ eqb (fst g) k = true).
Proof.
  induction rows as [|r rows [IHd [IHc IHv]]]; simpl.
  - split; [exact I|]. split; [intros k rs []|intros r k []].
  - destruct (key r) as [k|] eqn:Ek.
    + split; [now apply add_to_group_distinct|]. split.
      * intros k' rs' Hin. unfold in_group at 1. rewrite Ek.
        destruct (add_to_group_cases k r _ k' rs' IHd Hin)
          as [[Hg Hk]|[[rs [-> [Hg Hk]]]|[-> [-> Hall]]]].
        -- rewrite Hk. now apply IHc.
        -- rewrite Hk. destruct (IHc _ _ Hg) as [-> _]. split; [reflexivity|discriminate].
        -- rewrite eqb_refl. split; [|discriminate]. f_equal.
           symmetry. apply filter_none. intros x Hx.
           unfold in_group. destruct (key x) as [kx|] eqn:Ex; [|reflexivity].
           destruct (eqb k kx) eqn:E; [|reflexivity].
           destruct (IHv x kx Hx Ex) as [g [Hg Hk]].
           rewrite eqb_sym in E.
           pose proof (eqb_trans _ _ _ Hk E) as T.
           rewrite (Hall g Hg) in T. discriminate.
      * intros x kx [<-|Hx] Hkx.
        -- rewrite Ek in Hkx; inversion Hkx; subst.
           apply add_to_group_covers.
        -- destruct (IHv x kx Hx Hkx) as [h [Hh Hk]].
           destruct (proj2 (add_to_group_covers k r _) h Hh) as [g [Hg Hfst]].
           exists g. split; [assumption|]. now rewrite Hfst.
    + split; [assumption|]. split.
      * intros k' rs' Hin. unfold in_group at 1. rewrite Ek. now apply IHc.
      * intros x kx [<-|Hx] Hkx; [congruence|]. exact (IHv x kx Hx Hkx).
Qed.

Variable leb : K -> K -> bool.

Lemma groupby_perm (rows : list R) :
  Permutation (groupby eqb leb key rows) (collect eqb key rows).
Proof. apply sort_by_perm. Qed.

Lemma groupby_content (rows : list R) (k : K) (rs : list R) :
  In (k, rs) (groupby eqb leb key rows) ->
  rs = filter (in_group eqb key k) rows /\ rs <> [].
Proof.
  intros H. apply (Permutation_in _ (groupby_perm rows)) in H.
  now apply collect_spec.
Qed.

Lemma groupby_covers (rows : list R) (r : R) (k : K) :
  In r rows -> key r = Some k ->
  exists g, In g (groupby eqb leb key rows) /\ eqb (fst g) k = true.
Proof.
  intros Hr Hk.
  destruct (proj2 (proj2 (collect_spec rows)) r k Hr Hk) as [g [Hg He]].
  exists g. split; [|assumption].
  apply (Permutation_in _ (Permutation_sym (groupby_perm rows)) Hg).
Qed.

Lemma groupby_rows_perm (rows : list R) :
  Permutation (flat_map snd (groupby eqb leb key rows)) (filter (keyed key) rows).
Proof.
  rewrite <- collect_perm.
  apply Permutation_flat_map, groupby_perm.
Qed.

End GroupFacts.

(** ** Cells as group keys *)

Lemma cell_eqb_refl (c : cell) : cell_eqb c c = true.
Proof.
  destruct c; simpl; auto using Qeq_bool_refl, String.eqb_refl.
Qed.

Lemma cell_eqb_sym (a b : cell) : cell_eqb a b = cell_eqb b a.
Proof.
  destruct a, b; simpl; auto using Qeq_bool_comm, String.eqb_sym.
Qed.

Lemma cell_eqb_trans (a b c : cell) :
  cell_eqb a b = true -> cell_eqb b c = true -> cell_eqb a c = true.
Proof.
  destruct a, b, c; simpl; try discriminate; auto.
  - apply Qeq_bool_trans.
  - rewrite !String.eqb_eq. congruence.
Qed.

Lemma pair_eqb_refl (p : cell * cell) : pair_eqb p p = true.
Proof. unfold pair_eqb. now rewrite !cell_eqb_refl. Qed.

Lemma pair_eqb_sym (p q : cell * cell) : pair_eqb p q = pair_eqb q p.
Proof.
  unfold pair_eqb.
  now rewrite (cell_eqb_sym (fst p)), (cell_eqb_sym (snd p)).
Qed.

Lemma pair_eqb_trans (p q r : cell * cell) :
  pair_eqb p q = true -> pair_eqb q r = true -> pair_eqb p r = true.
Proof.
  unfold pair_eqb. rewrite !andb_true_iff.
  intros [H1 H2] [H3 H4]. eauto using cell_eqb_trans.
Qed.

Lemma key_of_Some (c k : cell) : key_of c = Some k -> k = c /\ c <> CNaN.
Proof.
  unfold key_of. destruct c; simpl; intros H; inversion H; split; congruence.
Qed.

Lemma key_of_notna (c : cell) : c <> CNaN -> key_of c = Some c.
Proof. intros H. destruct c; simpl; auto; congruence. Qed.

Lemma in_group_cell (R : Type) (f : R -> cell) (k : cell) (r : R) :
  k <> CNaN ->
  in_group cell_eqb (fun x => key_of (f x)) k r = cell_eqb k (f r).
Proof.
  intros Hk. unfold in_group, key_of.
  destruct (f r); simpl; auto. destruct k; auto; congruence.
Qed.

(** ** Sums *)

Lemma qsum_app (l1 l2 : list Q) : qsum (l1 ++ l2) == qsum l1 + qsum l2.
Proof.
  induction l1 as [|a l1 IH]; simpl; [ring|]. rewrite IH. ring.
Qed.

Lemma qsum_perm (l1 l2 : list Q) : Permutation l1 l2 -> qsum l1 == qsum l2.
Proof.
  induction 1; simpl; try ring.
  - now rewrite IHPermutation.
  - now rewrite IHPermutation1.
Qed.

Lemma qsum_groups (K R : Type) (f : R -> Q) (groups : list (K * list R)) :
  qsum (map (fun g => qsum (map f (snd g))) groups)
  == qsum (map f (flat_map snd groups)).
Proof.
  induction groups as [|g groups IH]; simpl; [reflexivity|].
  rewrite map_app, qsum_app, IH. reflexivity.
Qed.

Lemma qsum_ratio (R : Type) (f : R -> Q) (t k : Q) (l : list R) :
  ~ t == 0 ->
  qsum (map (fun r => f r / t * k) l) == qsum (map f l) / t * k.
Proof.
  intros Ht. induction l as [|a l IH]; simpl; [now field|].
  rewrite IH. now field.
Qed.

Lemma fsum_finite (l : list fval) :
  Forall (fun v => is_finite v = true) l ->
  fsum l = Fin (qsum (map to_Q l)).
Proof.
  unfold fsum. induction 1 as [|v l Hv Hl IH]; simpl; [reflexivity|].
  destruct v; try discriminate. simpl. now rewrite IH.
Qed.

Lemma fsum_Fin (l : list Q) : fsum (map Fin l) = Fin (qsum l).
Proof.
  rewrite fsum_finite.
  - rewrite map_map. simpl. now rewrite map_id.
  - apply Forall_forall. intros v Hv. apply in_map_iff in Hv as [q [<- _]].
    reflexivity.
Qed.

Lemma desc_before_total (a b : fval) :
  desc_before a b = false -> desc_before b a = true.
Proof.
  destruct a as [x| | |], b as [y| | |]; simpl; try discriminate; auto.
  intros H. apply Qle_bool_iff.
  destruct (Qlt_le_dec x y) as [Hlt|Hle]; [now apply Qlt_le_weak|].
  apply Qle_bool_iff in Hle. congruence.
Qed.

Lemma desc_before_trans (a b c : fval) :
  desc_before a b = true -> desc_before b c = true -> desc_before a c = true.
Proof.
  destruct a as [x| | |], b as [y| | |], c as [z| | |];
    simpl; try discriminate; auto.
  rewrite !Qle_bool_iff. intros H1 H2. now apply Qle_trans with y.
Qed.

(** ** Percentage mode *)

Lemma qdiv_nonzero (a b : Q) : ~ b == 0 -> qdiv a b = Fin (a / b).
Proof.
  intros H. unfold qdiv.
  destruct (Qeq_bool b 0) eqn:E; [|reflexivity].
  apply Qeq_bool_eq in E. contradiction.
Qed.

Lemma qdiv_zero (a b : Q) :
  b == 0 ->
  qdiv a b = match sign a with Gt => PosInf | Lt => NegInf | Eq => NaN end.
Proof.
  intros H. unfold qdiv. now rewrite (Qeq_eq_bool _ _ H).
Qed.

Lemma percent_not_finite (a b : Q) :
  b == 0 -> is_finite (fmul (qdiv a b) (Fin 100)) = false.
Proof.
  intros H. rewrite (qdiv_zero a b H). now destruct (sign a).
Qed.

Lemma in_percentage (fd : list LongRow) (r : FRow) :
  In r (percentage fd) ->
  In (base r) fd
  /\ Value r = Some (fmul (qdiv (Count (base r)) (grand_total fd)) (Fin 100)).
Proof.
  unfold percentage. intros H.
  apply in_map_iff in H as [r0 [<- Hin]]. simpl. auto.
Qed.

Lemma values_of_percentage (fd : list LongRow) :
  map (value ColValue) (percentage fd)
  = map (fun r => fmul (qdiv (Count r) (grand_total fd)) (Fin 100)) fd.
Proof.
  unfold percentage. rewrite map_map. reflexivity.
Qed.

Lemma zero_total_no_finite_value (fd : list LongRow) (r : FRow) :
  grand_total fd == 0 ->
  In r (percentage fd) ->
  is_finite (value ColValue r) = false.
Proof.
  intros Hz Hr. apply in_percentage in Hr as [_ Hv].
  simpl. rewrite Hv. now apply percent_not_finite.
Qed.

Lemma percentage_sums_to_100 (fd : list LongRow) :
  ~ grand_total fd == 0 ->
  feq (fsum (map (value ColValue) (percentage fd))) (Fin 100).
Proof.
  intros Hnz. rewrite values_of_percentage.
  rewrite map_ext with (g := fun r => Fin (Count r / grand_total fd * 100)).
  2:{ intros r. now rewrite (qdiv_nonzero _ _ Hnz). }
  rewrite <- (map_map (fun r => Count r / grand_total fd * 100) Fin).
  rewrite fsum_Fin. simpl.
  rewrite (qsum_ratio _ (@Count Q) (grand_total fd) 100 fd Hnz).
  fold (grand_total fd). now field.
Qed.

Lemma base_plain (fd : list LongRow) : map base (plain fd) = fd.
Proof. unfold plain. rewrite map_map. apply map_id. Qed.

Lemma base_percentage (fd : list LongRow) : map base (percentage fd) = fd.
Proof. unfold percentage. rewrite map_map. apply map_id. Qed.

Lemma base_with_value (ctl : Controls) (fd : list LongRow) :
  map base (fst (with_value ctl fd)) = fd.
Proof.
  unfold with_value.
  destruct (show_percentage ctl); simpl; auto using base_plain, base_percentage.
Qed.

Lemma by_industry_none (ctl : Controls) (fd : list LongRow) :
  selected_clusters ctl = [] -> by_industry ctl fd = [].
Proof.
  intros H. unfold by_industry. apply filter_none.
  intros r _. unfold industry_mask. now rewrite H.
Qed.

(** C10: emptiness is tested once, after the geography filter.  A run whose
    geography set is not empty goes on to the tables whatever the later filters
    leave, without the no-data warning; with no industry ticked the filtered
    set is empty and the tables are computed from it.  The grand total of an
    empty set is 0, and whenever the grand total is 0 the unguarded division
    leaves no row with a finite Value. *)
Theorem empty_industry_selection_unsignalled :
  (forall ctl long,
      geography ctl long <> [] ->
      exists d out,
        run ctl long = (Some d, out)
        /\ map base (filtered_data d)
           = by_industry ctl (by_worker ctl (geography ctl long))
        /\ ~ In (st_warning no_data) out)
  /\ (forall ctl long,
         geography ctl long <> [] ->
         selected_clusters ctl = [] ->
         exists d out,
           run ctl long = (Some d, out)
           /\ filtered_data d = []
           /\ industry_view d = []
           /\ geography_view d = []
           /\ ~ In (st_warning no_data) out
           /\ (show_percentage ctl = true -> value_col d = ColValue))
  /\ grand_total [] == 0
  /\ (forall fd r,
         grand_total fd == 0 ->
         In r (percentage fd) ->
         exists v, Value r = Some v /\ is_finite v = false).
Proof.
  split; [|split; [|split]].
  - intros ctl long Hgeo.
    destruct (run_continues ctl long Hgeo) as [m [out [Hrun Hout]]].
    eexists; eexists. split; [exact Hrun|]. split; [|exact Hout].
    apply base_with_value.
  - intros ctl long Hgeo Hsel.
    destruct (run_continues ctl long Hgeo) as [m [out [Hrun Hout]]].
    rewrite (by_industry_none ctl _ Hsel) in Hrun.
    eexists; eexists. split; [exact Hrun|].
    unfold with_value. destruct (show_percentage ctl); simpl; auto 10.
    repeat split; auto. discriminate.
  - reflexivity.
  - intros fd r Hz Hr.
    pose proof (zero_total_no_finite_value fd r Hz Hr) as Hfin.
    apply in_percentage in Hr as [_ Hv].
    eexists. split; [exact Hv|]. simpl in Hfin. now rewrite Hv in Hfin.
Qed.

Lemma empty_industry_selection_unsignalled_witness :
  exists d out,
    run (no_industry example_controls) example_long = (Some d, out)
    /\ filtered_data d = []
    /\ ~ In (st_warning no_data) out.
Proof.
  destruct empty_industry_selection_unsignalled as [_ [H _]].
  destruct (H (no_industry example_controls) example_long)
    as [d [out [Hrun [Hfd [_ [_ [Hout _]]]]]]].
  - discriminate.
  - reflexivity.
  - exists d, out. auto.
Defined.

(** ** Grouped sums *)

Lemma fsum_perm (l1 l2 : list fval) :
  Permutation l1 l2 ->
  Forall (fun v => is_finite v = true) l1 ->
  fsum l1 = Fin (qsum (map to_Q l1))
  /\ fsum l2 = Fin (qsum (map to_Q l2))
  /\ qsum (map to_Q l1) == qsum (map to_Q l2).
Proof.
  intros Hp Hf.
  split; [now apply fsum_finite|].
  split; [apply fsum_finite; now rewrite <- Hp|].
  apply qsum_perm. now apply Permutation_map.
Qed.

Section GroupSum.

Variable vc : ValueCol.
Variable key : FRow -> cell.
Variable fd : list FRow.

Lemma group_key_notna (k : cell) (rs : list FRow) :
  In (k, rs) (cell_groups key fd) -> k <> CNaN.
Proof.
  intros H.
  destruct (groupby_content _ _ cell_eqb (fun r => key_of (key r))
              cell_eqb_refl cell_eqb_sym cell_eqb_trans
              cell_leb fd k rs H) as [Hrs Hne].
  destruct rs as [|r rs']; [congruence|].
  assert (Hin : In r (filter (in_group cell_eqb (fun r => key_of (key r)) k) fd))
    by (rewrite <- Hrs; now left).
  apply filter_In in Hin as [_ Hg]. unfold in_group in Hg.
  destruct (key_of (key r)) as [k'|] eqn:E; [|discriminate].
  apply key_of_Some in E as [-> Hn].
  intros ->. destruct (key r); simpl in Hg; congruence.
Qed.

Lemma group_rows (k : cell) (rs : list FRow) :
  In (k, rs) (cell_groups key fd) ->
  k <> CNaN /\ rs = filter (fun r => cell_eqb k (key r)) fd.
Proof.
  intros H. pose proof (group_key_notna k rs H) as Hk.
  split; [assumption|].
  destruct (groupby_content _ _ cell_eqb (fun r => key_of (key r))
              cell_eqb_refl cell_eqb_sym cell_eqb_trans
              cell_leb fd k rs H) as [-> _].
  apply filter_ext. intros r. now apply in_group_cell.
Qed.

Lemma group_exists (r : FRow) :
  In r fd -> key r <> CNaN ->
  exists k rs, In (k, rs) (cell_groups key fd) /\ cell_eqb k (key r) = true.
Proof.
  intros Hr Hk.
  destruct (groupby_covers _ _ cell_eqb (fun r => key_of (key r))
              cell_eqb_refl cell_eqb_sym cell_eqb_trans
              cell_leb fd r (key r) Hr (key_of_notna _ Hk)) as [[k rs] [Hg He]].
  exists k, rs. auto.
Qed.

Lemma group_sum_content (k : cell) (v : fval) :
  In (k, v) (group_sum vc key fd) ->
  k <> CNaN
  /\ v = fsum (map (value vc) (filter (fun r => cell_eqb k (key r)) fd)).
Proof.
  unfold group_sum. intros H.
  apply in_map_iff in H as [[k' rs] [Heq Hg]]. simpl in Heq.
  inversion Heq; subst; clear Heq.
  destruct (group_rows k rs Hg) as [Hk ->]. auto.
Qed.

Lemma group_sum_covers (r : FRow) :
  In r fd -> key r <> CNaN ->
  exists k v, In (k, v) (group_sum vc key fd) /\ cell_eqb k (key r) = true.
Proof.
  intros Hr Hk. destruct (group_exists r Hr Hk) as [k [rs [Hg He]]].
  exists k, (fsum (map (value vc) rs)). split; [|assumption].
  unfold group_sum. apply in_map_iff. exists (k, rs). auto.
Qed.

Hypothesis finite_values : forall r, In r fd -> is_finite (value vc r) = true.

Lemma finite_rows_sum (rs : list FRow) :
  (forall r, In r rs -> In r fd) ->
  fsum (map (value vc) rs) = Fin (qsum (map (value_Q vc) rs)).
Proof.
  intros Hsub. rewrite fsum_finite.
  - now rewrite map_map.
  - apply Forall_forall. intros v Hv.
    apply in_map_iff in Hv as [r [<- Hr]]. auto.
Qed.

Lemma group_sum_values :
  map snd (group_sum vc key fd)
  = map Fin (map (fun g => qsum (map (value_Q vc) (snd g))) (cell_groups key fd)).
Proof.
  unfold group_sum. rewrite !map_map. apply map_ext_in.
  intros [k rs] Hg. simpl.
  apply finite_rows_sum. intros r Hr.
  destruct (group_rows k rs Hg) as [_ ->].
  now apply filter_In in Hr.
Qed.

(** The grouped sums add up to the sum over the rows that have a key. *)
Lemma group_sum_conserved :
  exists total,
    fsum (map snd (group_sum vc key fd)) = Fin total
    /\ total == qsum (map (value_Q vc) (filter (fun r => notna (key r)) fd)).
Proof.
  rewrite group_sum_values, fsum_Fin.
  eexists; split; [reflexivity|].
  rewrite qsum_groups.
  apply qsum_perm, Permutation_map.
  unfold cell_groups. rewrite groupby_rows_perm.
  rewrite filter_ext with (g := fun r => notna (key r)); [reflexivity|].
  intros r. unfold keyed, key_of. now destruct (notna (key r)).
Qed.

End GroupSum.

(** ** The Industry view *)

Lemma filter_all (A : Type) (p : A -> bool) (l : list A) :
  (forall x, In x l -> p x = true) -> filter p l = l.
Proof.
  induction l as [|a l IH]; simpl; auto.
  intros H. rewrite (H a) by auto. f_equal. apply IH. auto.
Qed.

Lemma industry_df_perm (vc : ValueCol) (fd : list FRow) :
  Permutation (industry_df vc fd)
              (group_sum vc (fun r => Industry_Category (base r)) fd).
Proof. apply sort_by_perm. Qed.

Lemma sort_values_desc_sorted (K : Type) (df : list (K * fval)) :
  sorted_desc (sort_values_desc df).
Proof.
  apply sort_by_sorted.
  - intros x y. apply desc_before_total.
  - intros x y z. apply desc_before_trans.
Qed.

Lemma industry_df_conserved (vc : ValueCol) (fd : list FRow) :
  (forall r, In r fd -> is_finite (value vc r) = true) ->
  exists total,
    fsum (map snd (industry_df vc fd)) = Fin total
    /\ total == qsum (map (fun r => to_Q (value vc r))
                          (filter (fun r => notna (Industry_Category (base r))) fd)).
Proof.
  intros Hfin.
  destruct (group_sum_conserved vc (fun r => Industry_Category (base r)) fd Hfin)
    as [total [Hsum Htotal]].
  pose proof (Permutation_map snd (industry_df_perm vc fd)) as Hp.
  assert (Hf : Forall (fun v => is_finite v = true) (map snd (industry_df vc fd))).
  { rewrite Hp, group_sum_values by assumption.
    apply Forall_forall. intros v Hv. apply in_map_iff in Hv as [x [<- _]].
    reflexivity. }
  destruct (fsum_perm _ _ Hp Hf) as [H1 [H2 H3]].
  eexists; split; [exact H1|].
  rewrite H3. rewrite Hsum in H2. inversion H2 as [Heq].
  rewrite <- Heq. exact Htotal.
Qed.

Lemma with_value_finite (ctl : Controls) (fd : list LongRow) :
  show_percentage ctl = false \/ ~ grand_total fd == 0 ->
  forall r, In r (fst (with_value ctl fd)) ->
            is_finite (value (snd (with_value ctl fd)) r) = true.
Proof.
  unfold with_value. intros H r.
  destruct (show_percentage ctl) eqn:E; simpl.
  - destruct H as [H|H]; [discriminate|].
    intros Hr. apply in_percentage in Hr as [_ ->].
    now rewrite (qdiv_nonzero _ _ H).
  - reflexivity.
Qed.

(** C6, as stated, fails in percentage mode: the view sums the Value
    column, so for one row of 50 workers it holds 100 while Count sums to 50.
    It also fails on a row without Industry_Category, which the grouping
    leaves out. *)
Lemma industry_view_sums_value_column :
  (exists d out,
      run example_controls fifty_rows = (Some d, out)
      /\ map (fun r => Count (base r)) (filtered_data d) = [50]
      /\ industry_view d = [(CStr "Textiles", Fin (5000 # 50))]
      /\ ~ feq (fsum (map snd (industry_view d)))
               (Fin (qsum (map (fun r => Count (base r)) (filtered_data d)))))
  /\ industry_df ColCount (plain blank_industry) = []
  /\ ~ feq (fsum (map snd (industry_df ColCount (plain blank_industry))))
           (Fin (grand_total blank_industry)).
Proof.
  split; [|split; [reflexivity|vm_compute; discriminate]].
  eexists; eexists.
  split; [reflexivity|]. split; [reflexivity|]. split; [reflexivity|].
  vm_compute. discriminate.
Qed.

(** C6 (amended): the Industry view has one row per Industry_Category of
    the filtered set, holding the sum of the value column over the rows of that
    category, largest sum first.  When every row has an Industry_Category and
    the values are finite, the sums of the view add up to the sum of the value
    column over the filtered set; that is the sum of Count when percentage mode
    is off. *)
Theorem industry_view_conserved (ctl : Controls) (fd : list LongRow) :
  let rows := fst (with_value ctl fd) in
  let vc := snd (with_value ctl fd) in
  let view := industry_df vc rows in
  sorted_desc view
  /\ (forall k v,
         In (k, v) view ->
         k <> CNaN
         /\ v = fsum (map (value vc)
                          (filter (fun r => cell_eqb k (Industry_Category (base r))) rows)))
  /\ (forall r,
         In r rows -> Industry_Category (base r) <> CNaN ->
         exists k v, In (k, v) view
                     /\ cell_eqb k (Industry_Category (base r)) = true)
  /\ ((forall r, In r fd -> Industry_Category r <> CNaN) ->
      (show_percentage ctl = false \/ ~ grand_total fd == 0) ->
      feq (fsum (map snd view)) (fsum (map (value vc) rows))
      /\ (show_percentage ctl = false ->
          feq (fsum (map snd view)) (Fin (grand_total fd)))).
Proof.
  intros rows vc view.
  split; [apply sort_values_desc_sorted|].
  split; [|split].
  - intros k v Hin.
    apply (Permutation_in _ (industry_df_perm vc rows)) in Hin.
    now apply group_sum_content in Hin.
  - intros r Hr Hk.
    destruct (group_sum_covers vc (fun r => Industry_Category (base r)) rows r Hr Hk)
      as [k [v [Hin He]]].
    exists k, v. split; [|assumption].
    apply (Permutation_in _ (Permutation_sym (industry_df_perm vc rows)) Hin).
  - intros Htyped Hmode.
    pose proof (with_value_finite ctl fd Hmode) as Hfin.
    destruct (industry_df_conserved vc rows Hfin) as [total [Hsum Htotal]].
    rewrite filter_all in Htotal.
    2:{ intros r Hr. assert (Hb : In (base r) fd).
        { rewrite <- (base_with_value ctl fd). now apply in_map. }
        specialize (Htyped _ Hb). now destruct (Industry_Category (base r)). }
    assert (Hrows : fsum (map (value vc) rows)
                    = Fin (qsum (map (fun r => to_Q (value vc r)) rows))).
    { rewrite fsum_finite; [now rewrite map_map|].
      apply Forall_forall. intros v Hv.
      apply in_map_iff in Hv as [r [<- Hr]]. now apply Hfin. }
    unfold view. rewrite Hsum.
    split.
    + fold rows vc. rewrite Hrows. exact Htotal.
    + intros Hoff. simpl. rewrite Htotal.
      unfold rows, vc, with_value, grand_total. rewrite Hoff. simpl.
      unfold plain. rewrite map_map. simpl. reflexivity.
Qed.

Lemma industry_view_conserved_witness :
  feq (fsum (map snd (industry_df ColCount
                        (plain [in_state "Tamilnadu" 0 30; in_state "Kerala" 1 10]))))
      (Fin (grand_total [in_state "Tamilnadu" 0 30; in_state "Kerala" 1 10])).
Proof.
  destruct (industry_view_conserved
              {| use_case := GeneralOverview; view_level := StateWise;
                 show_percentage := false; selected_states := [];
                 district_choice := []; worker_type := None; area := None;
                 gender := None; selected_clusters := [] |}
              [in_state "Tamilnadu" 0 30; in_state "Kerala" 1 10])
    as [_ [_ [_ H]]].
  apply H.
  - intros r [<-|[<-|[]]]; discriminate.
  - left; reflexivity.
  - reflexivity.
Defined.

(** ** The dependency-risk view *)

Lemma qsum_div (R : Type) (f : R -> Q) (t : Q) (l : list R) :
  ~ t == 0 -> qsum (map (fun r => f r / t) l) == qsum (map f l) / t.
Proof.
  intros Ht. induction l as [|a l IH]; simpl; [now field|].
  rewrite IH. now field.
Qed.

Lemma in_group_pair (R : Type) (f g : R -> cell) (d i : cell) (r : R) :
  d <> CNaN -> i <> CNaN ->
  in_group pair_eqb (fun x => key_of2 (f x) (g x)) (d, i) r
  = cell_eqb d (f r) && cell_eqb i (g r).
Proof.
  intros Hd Hi. unfold in_group, key_of2, pair_eqb.
  destruct (f r), (g r), d, i; simpl; try congruence;
    now rewrite ?andb_false_r.
Qed.

Lemma key_of2_Some (c d : cell) (k : cell * cell) :
  key_of2 c d = Some k -> k = (c, d) /\ c <> CNaN /\ d <> CNaN.
Proof.
  unfold key_of2. destruct c, d; simpl; intros H; inversion H;
    repeat split; congruence.
Qed.

Lemma key_of2_notna (c d : cell) :
  c <> CNaN -> d <> CNaN -> key_of2 c d = Some (c, d).
Proof. intros Hc Hd. destruct c, d; simpl; auto; congruence. Qed.

Section DistrictIndustry.

Variable fd : list FRow.

Lemma pair_group_rows (d i : cell) (rs : list FRow) :
  In ((d, i), rs) (groupby pair_eqb pair_leb district_industry_key fd) ->
  d <> CNaN /\ i <> CNaN
  /\ rs = filter (fun r => cell_eqb d (District (base r))
                           && cell_eqb i (Industry_Category (base r))) fd.
Proof.
  intros H.
  destruct (groupby_content _ _ pair_eqb district_industry_key
              pair_eqb_refl pair_eqb_sym pair_eqb_trans pair_leb fd (d, i) rs H)
    as [Hrs Hne].
  assert (Hk : d <> CNaN /\ i <> CNaN).
  { destruct rs as [|r rs']; [congruence|].
    assert (Hin : In r (filter (in_group pair_eqb district_industry_key (d, i)) fd))
      by (rewrite <- Hrs; now left).
    apply filter_In in Hin as [_ Hg]. unfold in_group in Hg.
    destruct (district_industry_key r) as [k|] eqn:E; [|discriminate].
    apply key_of2_Some in E as [-> [Hd Hi]].
    unfold pair_eqb in Hg; simpl in Hg. apply andb_prop in Hg as [H1 H2].
    split; intros ->.
    - destruct (District (base r)); simpl in H1; congruence.
    - destruct (Industry_Category (base r)); simpl in H2; congruence. }
  destruct Hk as [Hd Hi]. repeat split; auto.
  rewrite Hrs. apply filter_ext. intros r.
  now apply (in_group_pair _ (fun x => District (base x))
               (fun x => Industry_Category (base x))).
Qed.

Lemma district_industry_content (d i : cell) (c : Q) :
  In (d, i, c) (district_industry fd) ->
  d <> CNaN /\ i <> CNaN
  /\ c = qsum (map (fun r => Count (base r))
                   (filter (fun r => cell_eqb d (District (base r))
                                     && cell_eqb i (Industry_Category (base r))) fd)).
Proof.
  unfold district_industry. intros H.
  apply in_map_iff in H as [[[d' i'] rs] [Heq Hg]]. simpl in Heq.
  inversion Heq; subst; clear Heq.
  destruct (pair_group_rows d i rs Hg) as [Hd [Hi ->]]. auto.
Qed.

Lemma district_industry_covers (r : FRow) :
  In r fd ->
  District (base r) <> CNaN -> Industry_Category (base r) <> CNaN ->
  exists d i c, In (d, i, c) (district_industry fd)
                /\ cell_eqb d (District (base r)) = true
                /\ cell_eqb i (Industry_Category (base r)) = true.
Proof.
  intros Hr Hd Hi.
  destruct (groupby_covers _ _ pair_eqb district_industry_key
              pair_eqb_refl pair_eqb_sym pair_eqb_trans pair_leb fd r _ Hr
              (key_of2_notna _ _ Hd Hi)) as [[[d i] rs] [Hg He]].
  unfold pair_eqb in He; simpl in He. apply andb_prop in He as [H1 H2].
  exists d, i, (qsum (map (fun r => Count (base r)) rs)).
  split; [|auto].
  unfold district_industry. apply in_map_iff. exists ((d, i), rs). auto.
Qed.

End DistrictIndustry.

Lemma district_total_eqb (d1 d2 : cell) (counts : list (cell * cell * Q)) :
  cell_eqb d1 d2 = true -> district_total d1 counts = district_total d2 counts.
Proof.
  intros H. unfold district_total. f_equal. f_equal.
  apply filter_ext. intros x.
  destruct (cell_eqb (fst (fst x)) d1) eqn:E1, (cell_eqb (fst (fst x)) d2) eqn:E2;
    auto.
  - now rewrite (cell_eqb_trans _ _ _ E1 H) in E2.
  - rewrite cell_eqb_sym in H. now rewrite (cell_eqb_trans _ _ _ E2 H) in E1.
Qed.

(** Where the district total is not zero, the shares of a district sum to 1. *)
Lemma shares_sum_to_1 (fd : list FRow) (d : cell) :
  ~ district_total d (district_industry fd) == 0 ->
  feq (fsum (shares_of d (dep_df fd))) (Fin 1).
Proof.
  intros Hnz. unfold shares_of, dep_df.
  set (counts := district_industry fd) in *.
  rewrite filter_map_comm, map_map. simpl.
  rewrite map_ext_in
    with (g := fun x => Fin (snd x / district_total d counts)).
  2:{ intros x Hx. apply filter_In in Hx as [_ Hx].
      rewrite (district_total_eqb _ _ counts Hx).
      now apply qdiv_nonzero. }
  rewrite <- (map_map (fun x => snd x / district_total d counts) Fin).
  rewrite fsum_Fin. simpl.
  rewrite qsum_div by assumption.
  fold (district_total d counts). now field.
Qed.

(** ** The investment view *)

Lemma unique_nil (l : list cell) : unique l = [] <-> l = [].
Proof.
  split; [|now intros ->].
  destruct l; simpl; [reflexivity|discriminate].
Qed.

Lemma nunique_zero (l : list cell) :
  nunique l = 0%nat <-> forall c, In c l -> c = CNaN.
Proof.
  unfold nunique. rewrite length_zero_iff_nil, unique_nil.
  split.
  - intros H c Hc. destruct (notna c) eqn:E; [|now destruct c].
    assert (Hin : In c (filter notna l)) by (apply filter_In; auto).
    rewrite H in Hin. contradiction.
  - intros H. apply filter_none. intros c Hc. now rewrite (H c Hc).
Qed.

Lemma score_defined (total : Q) (n : nat) :
  n <> 0%nat ->
  qdiv total (inject_Z (Z.of_nat n)) = Fin (total / inject_Z (Z.of_nat n)).
Proof.
  intros Hn. apply qdiv_nonzero.
  unfold Qeq; simpl. lia.
Qed.

Lemma score_zero_industries (total : Q) :
  qdiv total (inject_Z (Z.of_nat 0))
  = match sign total with Gt => PosInf | Lt => NegInf | Eq => NaN end.
Proof. apply qdiv_zero. reflexivity. Qed.

Lemma in_invest_df (fd : list FRow) (x : InvestRow) :
  In x (invest_df fd) ->
  exists rs,
    In (inv_District x, rs) (cell_groups (fun r => District (base r)) fd)
    /\ Total_Workers x = qsum (map (fun r => Count (base r)) rs)
    /\ Industry_Count x = nunique (map (fun r => Industry_Category (base r)) rs)
    /\ Investment_Score x
       = qdiv (Total_Workers x) (inject_Z (Z.of_nat (Industry_Count x))).
Proof.
  unfold invest_df, invest_agg. rewrite map_map. intros H.
  apply in_map_iff in H as [[d rs] [<- Hg]]. simpl.
  exists rs. auto.
Qed.

Lemma in_invest_df_as (dt : dtype) (fd : list FRow) (x : InvestRow) :
  In x (invest_df_as dt fd) ->
  exists rs,
    In (inv_District x, rs) (cell_groups (fun r => District (base r)) fd)
    /\ Total_Workers x = series_sum dt (map (fun r => Count (base r)) rs)
    /\ Industry_Count x = nunique (map (fun r => Industry_Category (base r)) rs)
    /\ Investment_Score x
       = qdiv (Total_Workers x) (inject_Z (Z.of_nat (Industry_Count x))).
Proof.
  unfold invest_df_as, invest_agg_as. rewrite map_map. intros H.
  apply in_map_iff in H as [[d rs] [<- Hg]]. simpl.
  exists rs. auto.
Qed.

(** C1, as stated, fails: a district whose rows have no Industry_Category
    has Industry_Count 0; its row stays in the view and is scored +inf. *)
Lemma zero_industries_scored_inf :
  invest_shown_as int64 (plain blank_industry)
  = [{| inv_District := CStr "Chennai"; Total_Workers := 5;
        Industry_Count := 0; Investment_Score := PosInf |}]
  /\ ~ zero_guarded (invest_df_as int64 (plain blank_industry)).
Proof.
  split; [reflexivity|].
  intros H.
  specialize (H {| inv_District := CStr "Chennai"; Total_Workers := 5;
                   Industry_Count := 0; Investment_Score := PosInf |}).
  simpl in H. discriminate H; auto.
Qed.

(** C1 (amended): the investment view has one row per District of the
    filtered set, with Total_Workers the sum of Count at the dtype of the
    column, Industry_Count the number of distinct Industry_Category values and
    Investment_Score their quotient.  The division is not guarded: a row with
    Industry_Count 0 is kept and scored +inf, -inf or NaN after the sign of
    Total_Workers; nothing is raised. *)
Theorem investment_score_unguarded (dt : dtype) (fd : list FRow) :
  (forall x,
      In x (invest_df_as dt fd) ->
      let group := filter (fun r => cell_eqb (inv_District x) (District (base r))) fd in
      inv_District x <> CNaN
      /\ Total_Workers x = series_sum dt (map (fun r => Count (base r)) group)
      /\ Industry_Count x = nunique (map (fun r => Industry_Category (base r)) group)
      /\ Investment_Score x
         = qdiv (Total_Workers x) (inject_Z (Z.of_nat (Industry_Count x)))
      /\ (Industry_Count x <> 0%nat ->
          Investment_Score x
          = Fin (Total_Workers x / inject_Z (Z.of_nat (Industry_Count x))))
      /\ (Industry_Count x = 0%nat <->
          forall r, In r group -> Industry_Category (base r) = CNaN)
      /\ (Industry_Count x = 0%nat ->
          Investment_Score x
          = match sign (Total_Workers x) with
            | Gt => PosInf
            | Lt => NegInf
            | Eq => NaN
            end))
  /\ (forall r,
         In r fd -> District (base r) <> CNaN ->
         exists x, In x (invest_df_as dt fd)
                   /\ cell_eqb (inv_District x) (District (base r)) = true)
  /\ Permutation (invest_shown_as dt fd) (invest_df_as dt fd).
Proof.
  split; [|split].
  - intros x Hx group.
    destruct (in_invest_df_as dt fd x Hx) as [rs [Hg [Ht [Hn Hs]]]].
    destruct (group_rows (fun r => District (base r)) fd _ rs Hg) as [Hd Hrs].
    fold group in Hrs. subst rs.
    split; [assumption|]. split; [assumption|]. split; [assumption|].
    split; [assumption|].
    split; [intros Hnz; rewrite Hs; now apply score_defined|].
    split.
    + rewrite Hn, nunique_zero. split.
      * intros H r Hr. apply H. now apply in_map with (f := fun r => Industry_Category (base r)).
      * intros H c Hc. apply in_map_iff in Hc as [r [<- Hr]]. auto.
    + intros Hz. rewrite Hs, Hz. apply score_zero_industries.
  - intros r Hr Hd.
    destruct (group_exists (fun r => District (base r)) fd r Hr Hd)
      as [k [rs [Hg He]]].
    exists {| inv_District := k;
              Total_Workers := series_sum dt (map (fun r => Count (base r)) rs);
              Industry_Count := nunique (map (fun r => Industry_Category (base r)) rs);
              Investment_Score :=
                qdiv (series_sum dt (map (fun r => Count (base r)) rs))
                     (inject_Z (Z.of_nat (nunique (map (fun r => Industry_Category (base r)) rs)))) |}.
    split; [|assumption].
    unfold invest_df_as, invest_agg_as. rewrite map_map.
    apply in_map_iff. exists (k, rs). auto.
  - apply sort_by_perm.
Qed.

Lemma investment_score_unguarded_witness :
  exists x,
    In x (invest_df_as int64 (plain blank_industry))
    /\ Industry_Count x = 0%nat
    /\ Investment_Score x = PosInf.
Proof.
  destruct (investment_score_unguarded int64 (plain blank_industry)) as [H _].
  exists {| inv_District := CStr "Chennai"; Total_Workers := 5;
            Industry_Count := 0; Investment_Score := PosInf |}.
  split; [left; reflexivity|]. split; [reflexivity|].
  destruct (H {| inv_District := CStr "Chennai"; Total_Workers := 5;
                 Industry_Count := 0; Investment_Score := PosInf |})
    as [_ [_ [_ [_ [_ [_ Hinf]]]]]].
  - left; reflexivity.
  - exact (Hinf eq_refl).
Defined.

(** ** Column names *)

Lemma lstrip_starts_clean (s : string) : starts_clean (lstrip s) = true.
Proof.
  induction s as [|c s IH]; simpl; auto.
  destruct (isspace c) eqn:E; simpl; auto. now rewrite E.
Qed.

Lemma lstrip_fixed (s : string) : starts_clean s = true -> lstrip s = s.
Proof.
  destruct s as [|c s]; simpl; auto.
  intros H. apply negb_true_iff in H. now rewrite H.
Qed.

Lemma rstrip_ends_clean (s : string) : ends_clean (rstrip s) = true.
Proof.
  induction s as [|c s IH]; simpl; auto.
  destruct (rstrip s) as [|k ks] eqn:E.
  - destruct (isspace c) eqn:Ec; simpl; auto. now rewrite Ec.
  - exact IH.
Qed.

Lemma rstrip_fixed (s : string) : ends_clean s = true -> rstrip s = s.
Proof.
  induction s as [|c s IH]; simpl; auto.
  destruct s as [|d s'].
  - simpl. intros H. apply negb_true_iff in H. now rewrite H.
  - intros H. rewrite (IH H). reflexivity.
Qed.

Lemma rstrip_starts_clean (s : string) :
  starts_clean s = true -> starts_clean (rstrip s) = true.
Proof.
  destruct s as [|c s]; simpl; auto.
  intros H. destruct (rstrip s); simpl; auto.
  apply negb_true_iff in H. rewrite H. simpl. now rewrite H.
Qed.

Lemma replace_starts_clean (s : string) :
  starts_clean s = true -> starts_clean (replace_char " " "_" s) = true.
Proof.
  destruct s as [|c s]; simpl; auto.
  destruct (Ascii.eqb c " "); auto.
Qed.

Lemma replace_ends_clean (s : string) :
  ends_clean s = true -> ends_clean (replace_char " " "_" s) = true.
Proof.
  induction s as [|c s IH]; simpl; auto.
  destruct s as [|d s'].
  - simpl. destruct (Ascii.eqb c " "); auto.
  - intros H. specialize (IH H). simpl in IH. exact IH.
Qed.

Lemma replace_no_space (s : string) :
  count_char " " (replace_char " " "_" s) = 0%nat.
Proof.
  induction s as [|c s IH]; simpl; auto.
  rewrite IH. destruct (Ascii.eqb c " ") eqn:E; simpl; [reflexivity|].
  now rewrite E.
Qed.

Lemma replace_fixed (s : string) :
  count_char " " s = 0%nat -> replace_char " " "_" s = s.
Proof.
  induction s as [|c s IH]; simpl; auto.
  destruct (Ascii.eqb c " "); simpl; [discriminate|].
  intros H. now rewrite (IH H).
Qed.

Lemma strip_fixed (s : string) :
  starts_clean s = true -> ends_clean s = true -> strip s = s.
Proof.
  intros Hs He. unfold strip. rewrite (lstrip_fixed s Hs). now apply rstrip_fixed.
Qed.

(** A normalized name has no space and no white space at either end. *)
Lemma normalize_name_shape (c : string) :
  count_char " " (normalize_name c) = 0%nat
  /\ starts_clean (normalize_name c) = true
  /\ ends_clean (normalize_name c) = true.
Proof.
  unfold normalize_name, strip.
  split; [apply replace_no_space|].
  split.
  - apply replace_starts_clean, rstrip_starts_clean, lstrip_starts_clean.
  - apply replace_ends_clean, rstrip_ends_clean.
Qed.

Lemma normalize_name_fixed (c : string) :
  count_char " " c = 0%nat -> starts_clean c = true -> ends_clean c = true ->
  normalize_name c = c.
Proof.
  intros Hn Hs He. unfold normalize_name.
  rewrite (strip_fixed c Hs He). now apply replace_fixed.
Qed.

(** Normalizing the header twice is normalizing it once; the rows and the
    number of columns are left as they were. *)
Theorem normalize_idempotent (data : DataFrame) :
  normalize (normalize data) = normalize data
  /\ rows (normalize data) = rows data
  /\ List.length (columns (normalize data)) = List.length (columns data).
Proof.
  unfold normalize; simpl. split; [|split; [reflexivity|apply length_map]].
  f_equal. rewrite map_map. apply map_ext. intros c.
  destruct (normalize_name_shape c) as [Hn [Hs He]].
  now apply normalize_name_fixed.
Qed.

(** After normalization no header name contains a space or starts or ends
    with white space, and a name that already is so is kept unchanged. *)
Theorem normalize_names_clean (data : DataFrame) :
  (forall c, In c (columns (normalize data)) ->
             count_char " " c = 0%nat
             /\ lstrip c = c /\ rstrip c = c)
  /\ (forall c, count_char " " c = 0%nat -> lstrip c = c -> rstrip c = c ->
                normalize_name c = c).
Proof.
  split.
  - intros c Hc. unfold normalize in Hc; simpl in Hc.
    apply in_map_iff in Hc as [c0 [<- _]].
    destruct (normalize_name_shape c0) as [Hn [Hs He]].
    split; [assumption|].
    split; [now apply lstrip_fixed|now apply rstrip_fixed].
  - intros c Hn Hl Hr. apply normalize_name_fixed; auto.
    + rewrite <- Hl. apply lstrip_starts_clean.
    + rewrite <- Hr. apply rstrip_ends_clean.
Qed.

Lemma normalize_names_clean_witness :
  normalize_name "Marginal_Workers-Urban-Persons" = "Marginal_Workers-Urban-Persons"
  /\ columns (normalize spaced_wide)
     = ["State"; "Industry_Category"; "Main_Workers-Rural-Males"].
Proof.
  split; [|reflexivity].
  destruct (normalize_names_clean spaced_wide) as [_ H].
  apply H; reflexivity.
Defined.

(** ** Worker columns and identifier columns *)

Lemma filter_split_perm (A : Type) (p : A -> bool) (l : list A) :
  Permutation (filter p l ++ filter (fun a => negb (p a)) l) l.
Proof.
  induction l as [|a l IH]; simpl; auto.
  destruct (p a); simpl.
  - now constructor.
  - rewrite <- Permutation_middle. now constructor.
Qed.

Lemma str_in_iff (s : string) (l : list string) : str_in s l = true <-> In s l.
Proof.
  split; [apply str_in_In|].
  intros H. unfold str_in. apply existsb_exists. exists s.
  split; [assumption|apply String.eqb_refl].
Qed.

Lemma id_cols_filter (data : DataFrame) :
  id_cols data = filter (fun c => negb (is_worker_col c)) (columns data).
Proof.
  unfold id_cols. apply filter_ext_in. intros c Hc. f_equal.
  destruct (is_worker_col c) eqn:E.
  - apply str_in_iff. unfold worker_cols. apply filter_In. auto.
  - destruct (str_in c (worker_cols data)) eqn:E'; [|reflexivity].
    apply str_in_iff in E'. unfold worker_cols in E'.
    apply filter_In in E' as [_ E']. congruence.
Qed.

(** The worker columns and the identifier columns split the header: each
    column is in exactly one of the two lists, both in header order. *)
Theorem header_partition (data : DataFrame) :
  Permutation (worker_cols data ++ id_cols data) (columns data)
  /\ subseq (worker_cols data) (columns data)
  /\ subseq (id_cols data) (columns data)
  /\ (List.length (worker_cols data) + List.length (id_cols data)
      = List.length (columns data))%nat
  /\ (forall c, In c (worker_cols data) <->
                In c (columns data) /\ is_worker_col c = true)
  /\ (forall c, In c (id_cols data) <->
                In c (columns data) /\ is_worker_col c = false)
  /\ (forall c, In c (worker_cols data) -> In c (id_cols data) -> False).
Proof.
  rewrite id_cols_filter. unfold worker_cols.
  assert (Hp := filter_split_perm _ is_worker_col (columns data)).
  split; [exact Hp|].
  split; [apply subseq_filter|]. split; [apply subseq_filter|].
  split; [rewrite <- length_app; now apply Permutation_length|].
  split; [intros c; apply filter_In|].
  split.
  - intros c. rewrite filter_In, negb_true_iff. reflexivity.
  - intros c H1 H2. apply filter_In in H1 as [_ H1].
    apply filter_In in H2 as [_ H2]. rewrite H1 in H2. discriminate.
Qed.

(** ** Splitting a column name *)

Lemma str_split_cons (sep : ascii) (s : string) :
  exists p ps, str_split sep s = p :: ps.
Proof.
  destruct s as [|c s]; simpl; [eauto|].
  destruct (Ascii.eqb c sep); [eauto|].
  destruct (str_split sep s); eauto.
Qed.

(** The tokens of a name are one more than its separators, none contains
    the separator, and joined by the separator they give the name back. *)
Theorem str_split_join (sep : ascii) (s : string) :
  String.concat (String sep EmptyString) (str_split sep s) = s
  /\ List.length (str_split sep s) = S (count_char sep s)
  /\ Forall (fun p => count_char sep p = 0%nat) (str_split sep s).
Proof.
  induction s as [|c s [IHj [IHl IHf]]]; simpl.
  - repeat split. repeat constructor.
  - destruct (str_split_cons sep s) as [p [ps Hsp]].
    rewrite Hsp in *.
    destruct (Ascii.eqb c sep) eqn:E.
    + apply Ascii.eqb_eq in E; subst c.
      split; [|split].
      * simpl. simpl in IHj. now rewrite IHj.
      * simpl. simpl in IHl. now rewrite IHl.
      * constructor; [reflexivity|assumption].
    + split; [|split].
      * simpl in *. destruct ps; simpl in *; now rewrite <- IHj.
      * simpl in *. assumption.
      * inversion IHf; subst. constructor; [|assumption].
        simpl. now rewrite E.
Qed.

(** ** Row identity and provenance in the long table *)

Lemma idx_number_from (n : nat) (l : list (record * string * cell)) :
  map m_idx (number_from n l) = seq n (List.length l).
Proof.
  revert n; induction l as [|[[i v] c] l IH]; intros n; simpl; auto.
  now rewrite IH.
Qed.

Lemma seq_sorted (n k : nat) : StronglySorted lt (seq n k).
Proof.
  revert n; induction k as [|k IH]; intros n; simpl; constructor; auto.
  apply Forall_forall. intros x Hx. apply in_seq in Hx. lia.
Qed.

Lemma sorted_filter_map (A : Type) (f : A -> nat) (p : A -> bool) (l : list A) :
  StronglySorted lt (map f l) -> StronglySorted lt (map f (filter p l)).
Proof.
  induction l as [|a l IH]; simpl; auto.
  intros H. inversion H as [|x xs Hs Hall]; subst.
  destruct (p a); simpl; auto.
  constructor; auto.
  apply Forall_forall. intros y Hy.
  apply in_map_iff in Hy as [b [<- Hb]]. apply filter_In in Hb as [Hb _].
  rewrite Forall_forall in Hall. apply Hall. now apply in_map.
Qed.

Lemma sorted_lt_NoDup (l : list nat) : StronglySorted lt l -> NoDup l.
Proof.
  induction 1 as [|x l Hs IH Hall]; constructor; auto.
  intros Hin. rewrite Forall_forall in Hall. specialize (Hall x Hin). lia.
Qed.

Lemma idx_dropna_count (parse_number : string -> option Q) (long : list (Row cell)) :
  map (@idx Q) (dropna_count (map (coerce_count parse_number) long))
  = map (@idx cell) (filter (fun r => converts parse_number (Count r)) long).
Proof.
  induction long as [|r long IH]; simpl; auto.
  unfold converts at 1.
  destruct (to_numeric parse_number (Count r)); simpl; now rewrite IH.
Qed.

Lemma in_number_from (n : nat) (l : list (record * string * cell)) (m : MeltRow) :
  In m (number_from n l) -> In (m_ids m, Variable_ m, m_Count m) l.
Proof.
  revert n; induction l as [|[[i v] c] l IH]; intros n; simpl; auto.
  intros [<-|H]; simpl; eauto.
Qed.

Lemma number_from_in (n : nat) (l : list (record * string * cell))
      (i : record) (v : string) (c : cell) :
  In (i, v, c) l ->
  exists m, In m (number_from n l)
            /\ m_ids m = i /\ Variable_ m = v /\ m_Count m = c.
Proof.
  revert n; induction l as [|[[i0 v0] c0] l IH]; intros n; simpl; [easy|].
  intros [H|H].
  - inversion H; subst. eexists; split; [left; reflexivity|simpl; auto].
  - destruct (IH (S n) H) as [m [Hm Hf]]. exists m; auto.
Qed.

(** A melted row is a cell of a value column of an input row, beside the
    identifier cells of that row; every such cell is melted. *)
Lemma in_melt (data : DataFrame) (id_vars value_vars : list string)
      (i : record) (v : string) (c : cell) :
  (exists m, In m (melt data id_vars value_vars)
             /\ m_ids m = i /\ Variable_ m = v /\ m_Count m = c)
  <-> (exists r, In r (records data) /\ In v value_vars
                 /\ i = select id_vars r /\ c = get v r).
Proof.
  unfold melt. split.
  - intros [m [Hm [<- [<- <-]]]]. apply in_number_from in Hm.
    apply in_flat_map in Hm as [w [Hw Hm]].
    apply in_map_iff in Hm as [r [Heq Hr]].
    inversion Heq; subst. exists r; auto.
  - intros [r [Hr [Hv [-> ->]]]].
    apply number_from_in. apply in_flat_map. exists v; split; [assumption|].
    apply in_map_iff. exists r; auto.
Qed.

Lemma dropna_count_in (parse_number : string -> option Q)
      (long : list (Row cell)) (r' : Row cell) (q : Q) :
  In r' long ->
  to_numeric parse_number (Count r') = Some q ->
  exists r, In r (dropna_count (map (coerce_count parse_number) long))
            /\ idx r = idx r' /\ ids r = ids r'
            /\ Worker_Type r = Worker_Type r' /\ Area r = Area r'
            /\ Gender r = Gender r' /\ Count r = q.
Proof.
  intros Hin Hq. unfold dropna_count.
  eexists. split.
  - apply in_flat_map. exists (coerce_count parse_number r').
    split; [now apply in_map|]. simpl. rewrite Hq. left; reflexivity.
  - simpl. auto 10.
Qed.

Section Provenance.

Variable parse_number : string -> option Q.
Variable data : DataFrame.
Variable long : list (Row Q).
Hypothesis reshaped : reshape parse_number data = Some long.

Lemma reshaped_eq :
  long = dropna_count
           (map (coerce_count parse_number)
              (map with_metadata (melt data (id_cols data) (worker_cols data)))).
Proof.
  unfold reshape in reshaped. rewrite split_metadata_eq in reshaped.
  destruct (3 <=? split_width _)%nat; [|discriminate].
  now inversion reshaped.
Qed.

(** The rows of the long table keep the index [melt] gave them: the melted
    rows are numbered 0, 1, ... in melt order, and the long table carries the
    numbers of exactly the rows whose Count converts, gaps included (dropping
    rows does not renumber).  Hence no two rows share an index, the indices
    increase and stay below rows x columns. *)
Theorem long_index_unique :
  map m_idx (melt data (id_cols data) (worker_cols data))
  = seq 0 (List.length (rows data) * List.length (worker_cols data))
  /\ map (@idx Q) long
     = map m_idx
         (filter (fun m => converts parse_number (m_Count m))
                 (melt data (id_cols data) (worker_cols data)))
  /\ StronglySorted lt (map (@idx Q) long)
  /\ NoDup (map (@idx Q) long)
  /\ (forall r, In r long ->
                (idx r < List.length (rows data) * List.length (worker_cols data))%nat).
Proof.
  assert (Hm : map m_idx (melt data (id_cols data) (worker_cols data))
               = seq 0 (List.length (rows data) * List.length (worker_cols data))).
  { rewrite <- (length_melt data (id_cols data) (worker_cols data)).
    unfold melt. rewrite idx_number_from, length_number_from. reflexivity. }
  assert (Hi : map (@idx Q) long
               = map m_idx
                   (filter (fun m => converts parse_number (m_Count m))
                           (melt data (id_cols data) (worker_cols data)))).
  { rewrite reshaped_eq, idx_dropna_count, filter_map_comm, map_map.
    reflexivity. }
  assert (Hs : StronglySorted lt (map (@idx Q) long)).
  { rewrite Hi. apply sorted_filter_map. rewrite Hm. apply seq_sorted. }
  split; [exact Hm|]. split; [exact Hi|].
  split; [exact Hs|]. split; [now apply sorted_lt_NoDup|].
  intros r Hr. apply (in_map (@idx Q)) in Hr. rewrite Hi in Hr.
  apply in_map_iff in Hr as [m [<- Hr]]. apply filter_In in Hr as [Hr _].
  apply (in_map m_idx) in Hr. rewrite Hm in Hr. apply in_seq in Hr. lia.
Qed.

(** Nothing is invented and nothing numeric is lost: a row of the long
    table is the converted cell of one value column of one input row, with the
    identifier cells of that row and the metadata of that column; and every
    cell of a value column that converts to a number has its row. *)
Theorem long_rows_provenance :
  (forall r,
      In r long ->
      exists rec c,
        In rec (records data) /\ In c (worker_cols data)
        /\ ids r = select (id_cols data) rec
        /\ to_numeric parse_number (get c rec) = Some (Count r)
        /\ Worker_Type r = replace worker_type_map (token 0 c)
        /\ Area r = token 1 c
        /\ Gender r = replace gender_map (token 2 c))
  /\ (forall rec c q,
         In rec (records data) -> In c (worker_cols data) ->
         to_numeric parse_number (get c rec) = Some q ->
         exists r,
           In r long
           /\ ids r = select (id_cols data) rec
           /\ Count r = q
           /\ Worker_Type r = replace worker_type_map (token 0 c)
           /\ Area r = token 1 c
           /\ Gender r = replace gender_map (token 2 c)).
Proof.
  split.
  - intros r Hr. rewrite reshaped_eq in Hr.
    apply in_dropna_count in Hr as [r' [Hin [_ [Hids [Hw [Ha [Hg Hq]]]]]]].
    apply in_map_iff in Hin as [m [<- Hm]]. simpl in *.
    destruct (proj1 (in_melt data (id_cols data) (worker_cols data)
                       (m_ids m) (Variable_ m) (m_Count m)))
      as [rec [Hrec [Hc [Hi Hcount]]]].
    { exists m; auto. }
    exists rec, (Variable_ m). rewrite <- Hcount, <- Hi. auto 10.
  - intros rec c q Hrec Hc Hq.
    destruct (proj2 (in_melt data (id_cols data) (worker_cols data)
                       (select (id_cols data) rec) c (get c rec)))
      as [m [Hm [Hi [Hv Hcount]]]].
    { exists rec; auto. }
    destruct (dropna_count_in parse_number
                (map with_metadata (melt data (id_cols data) (worker_cols data)))
                (with_metadata m) q)
      as [r [Hr [_ [Hids [Hw [Ha [Hg Hcnt]]]]]]].
    { now apply in_map. }
    { simpl. now rewrite Hcount. }
    exists r. rewrite reshaped_eq. simpl in *.
    rewrite Hids, Hw, Ha, Hg, Hi, Hv. auto 10.
Qed.

End Provenance.

Lemma long_index_unique_witness :
  exists long,
    reshape parse_decimal gaps_wide = Some long
    /\ map (@idx Q) long = [0%nat; 3%nat].
Proof.
  destruct (reshape parse_decimal gaps_wide) as [long|] eqn:E;
    [|vm_compute in E; discriminate].
  exists long. split; [reflexivity|].
  destruct (long_index_unique parse_decimal gaps_wide long E) as [_ [H _]].
  rewrite H. reflexivity.
Defined.

Lemma long_rows_provenance_witness :
  exists r, In r example_long /\ Count r = 50
            /\ Area r = Some "Urban" /\ Gender r = Some "Female".
Proof.
  destruct (long_rows_provenance parse_decimal example_wide example_long eq_refl)
    as [_ H].
  destruct (H (combine (columns example_wide)
                 [CStr "Tamilnadu"; CStr "Chennai"; CStr "Textiles"; CNum 100; CNum 50])
              "Main_Workers-Urban-Females" 50)
    as [r [Hr [_ [Hq [_ [Ha Hg]]]]]].
  - left; reflexivity.
  - right; left; reflexivity.
  - reflexivity.
  - exists r. auto.
Defined.

(** ** The filter chain as one mask *)

Lemma by_district_filter (ctl : Controls) (fd : list LongRow) :
  by_district ctl fd = filter (district_pass ctl) fd.
Proof.
  unfold by_district, district_pass.
  destruct (selected_districts ctl) as [[|d ds]|]; auto;
    symmetry; apply filter_all; auto.
Qed.

Lemma apply_stage_filter (s : FilterStage) (ctl : Controls) :
  exists mask, forall fd, apply_stage s ctl fd = filter mask fd.
Proof.
  destruct s; simpl; try (eexists; intros fd; reflexivity).
  exists (district_pass ctl). apply by_district_filter.
Qed.

Lemma filter_comm (A : Type) (p q : A -> bool) (l : list A) :
  filter p (filter q l) = filter q (filter p l).
Proof.
  rewrite !filter_filter_and. apply filter_ext. intros a. apply andb_comm.
Qed.

Lemma filter_idem (A : Type) (p : A -> bool) (l : list A) :
  filter p (filter p l) = filter p l.
Proof.
  rewrite filter_filter_and. apply filter_ext. intros a. now destruct (p a).
Qed.

Lemma filtered_filter (ctl : Controls) (long : list LongRow) :
  filtered ctl long = filter (all_masks ctl) long.
Proof.
  unfold filtered, by_industry, by_worker, geography, by_state.
  rewrite by_district_filter, !filter_filter_and.
  apply filter_ext. intros r. unfold all_masks.
  now rewrite !andb_assoc.
Qed.

(** The filters compose by intersection: a row is in the filtered set
    exactly when it is in the long table and passes every mask, and the
    filtered set is the long table under the conjunction of the masks. *)
Theorem filtered_is_intersection (ctl : Controls) (long : list LongRow) :
  filtered ctl long = filter (all_masks ctl) long
  /\ (forall r,
         In r (filtered ctl long) <->
         In r long
         /\ isin (State r) (selected_states ctl) = true
         /\ district_pass ctl r = true
         /\ eq_sel (Worker_Type r) (worker_type ctl) = true
         /\ eq_sel (Area r) (area ctl) = true
         /\ eq_sel (Gender r) (gender ctl) = true
         /\ isin (Industry_Category r) (selected_clusters ctl) = true).
Proof.
  split; [apply filtered_filter|].
  intros r. rewrite filtered_filter, filter_In. unfold all_masks.
  rewrite !andb_true_iff.
  unfold state_mask, worker_type_mask, area_mask, gender_mask, industry_mask.
  tauto.
Qed.

(** With the selections fixed, the order of the filters does not matter and
    applying one twice changes nothing. *)
Theorem stages_commute (ctl : Controls) (s1 s2 : FilterStage) (fd : list LongRow) :
  apply_stage s1 ctl (apply_stage s2 ctl fd)
  = apply_stage s2 ctl (apply_stage s1 ctl fd)
  /\ apply_stage s1 ctl (apply_stage s1 ctl fd) = apply_stage s1 ctl fd.
Proof.
  destruct (apply_stage_filter s1 ctl) as [m1 H1].
  destruct (apply_stage_filter s2 ctl) as [m2 H2].
  rewrite !H1, !H2. split; [apply filter_comm|apply filter_idem].
Qed.

Lemma by_state_none (ctl : Controls) (long : list LongRow) :
  selected_states ctl = [] -> by_state ctl long = [].
Proof.
  intros H. unfold by_state. apply filter_none.
  intros r _. unfold state_mask. now rewrite H.
Qed.

(** With no state selected (the default when the table has no Tamilnadu
    row) the run shows the no-data warning and stops, whatever the table and
    the other selections. *)
Theorem no_state_selected_stops (ctl : Controls) (long : list LongRow) :
  selected_states ctl = [] ->
  geography ctl long = []
  /\ run ctl long = (None, [st_warning no_data]).
Proof.
  intros H.
  assert (Hg : geography ctl long = []).
  { unfold geography. rewrite (by_state_none ctl long H).
    rewrite by_district_filter. reflexivity. }
  split; [exact Hg|now apply run_stops].
Qed.

Lemma no_state_selected_stops_witness :
  run (no_state example_controls) two_districts = (None, [st_warning no_data]).
Proof.
  apply (no_state_selected_stops (no_state example_controls) two_districts).
  reflexivity.
Defined.

(** ** Selecting every option *)

Lemma existsb_perm (A : Type) (p : A -> bool) (l1 l2 : list A) :
  Permutation l1 l2 -> existsb p l1 = existsb p l2.
Proof.
  induction 1; simpl; auto.
  - now rewrite IHPermutation.
  - now rewrite !orb_assoc, (orb_comm (p y)).
  - congruence.
Qed.

Lemma isin_unique (c : cell) (l : list cell) : isin c (unique l) = isin c l.
Proof.
  unfold isin. induction l as [|d l IH]; simpl; auto.
  destruct (cell_eqb c d) eqn:E; simpl; auto.
  rewrite <- IH. clear IH.
  induction (unique l) as [|u us IHu]; simpl; auto.
  destruct (cell_eqb u d) eqn:Eu; simpl.
  - rewrite IHu.
    destruct (cell_eqb c u) eqn:Ec; [|reflexivity].
    now rewrite (cell_eqb_trans _ _ _ Ec Eu) in E.
  - now rewrite IHu.
Qed.

Lemma isin_self (c : cell) (l : list cell) : In c l -> isin c l = true.
Proof.
  intros H. unfold isin. apply existsb_exists. exists c.
  split; [assumption|apply cell_eqb_refl].
Qed.

Lemma isin_notna (c : cell) (l : list cell) :
  isin c (filter notna l) = notna c && isin c l.
Proof.
  unfold isin. induction l as [|d l IH]; simpl; [now rewrite andb_false_r|].
  destruct d; simpl; rewrite IH; destruct c; simpl; auto.
Qed.

(** With every industry ticked (the default, in any order) the industry
    filter keeps its whole input, rows without Industry_Category included. *)
Theorem all_industries_selected (ctl : Controls) (fd : list LongRow) :
  Permutation (selected_clusters ctl) (distinct_industries fd) ->
  by_industry ctl fd = fd.
Proof.
  intros Hp. unfold by_industry. apply filter_all.
  intros r Hr. unfold industry_mask, isin.
  rewrite (existsb_perm _ _ _ _ Hp).
  unfold distinct_industries. fold (isin (Industry_Category r) (unique (map Industry_Category fd))).
  rewrite isin_unique. apply isin_self. now apply in_map.
Qed.

Lemma all_industries_selected_witness :
  by_industry example_controls fifty_rows = fifty_rows.
Proof.
  apply (all_industries_selected example_controls fifty_rows).
  apply Permutation_refl.
Defined.

(** In the district-wise view with every district ticked (the default, in
    any order), the geography filter keeps the state-filtered rows that have a
    District and drops those that have none; when no state-filtered row has a
    District the list is empty, the filter is skipped and all of them stay. *)
Theorem all_districts_selected (ctl : Controls) (long : list LongRow) :
  view_level ctl = DistrictWise ->
  Permutation (district_choice ctl) (distinct_districts ctl long) ->
  (distinct_districts ctl long <> [] ->
   geography ctl long = filter (fun r => notna (District r)) (by_state ctl long))
  /\ (distinct_districts ctl long = [] ->
      geography ctl long = by_state ctl long
      /\ forall r, In r (by_state ctl long) -> District r = CNaN).
Proof.
  intros Hv Hp. unfold geography, by_district, selected_districts.
  rewrite Hv. split.
  - intros Hne.
    destruct (district_choice ctl) as [|d ds] eqn:Ed.
    { apply Permutation_nil in Hp. congruence. }
    apply filter_ext_in. intros r Hr. unfold district_mask, isin.
    rewrite (existsb_perm _ _ _ _ Hp). unfold distinct_districts.
    fold (isin (District r) (unique (filter notna (map District (by_state ctl long))))).
    rewrite isin_unique, isin_notna.
    rewrite (isin_self (District r)) by now apply in_map.
    apply andb_true_r.
  - intros He. rewrite He in Hp. apply Permutation_sym, Permutation_nil in Hp.
    rewrite Hp. split; [reflexivity|].
    intros r Hr. unfold distinct_districts in He.
    apply (proj1 (unique_nil _)) in He.
    destruct (District r) eqn:E; auto;
      assert (Hin : In (District r) (filter notna (map District (by_state ctl long))))
        by (apply filter_In; split; [now apply in_map|now rewrite E]);
      rewrite He in Hin; contradiction.
Qed.

Lemma all_districts_selected_witness :
  geography
    {| use_case := GeneralOverview; view_level := DistrictWise;
       show_percentage := false; selected_states := [CStr "Tamilnadu"];
       district_choice := [CStr "North"; CStr "South"];
       worker_type := Some "Main"; area := Some "Rural"; gender := Some "Male";
       selected_clusters := [] |}
    mixed_districts
  = [in_district "North" "Textiles" 0 600; in_district "South" "Retail" 2 100].
Proof.
  destruct (all_districts_selected
              {| use_case := GeneralOverview; view_level := DistrictWise;
                 show_percentage := false; selected_states := [CStr "Tamilnadu"];
                 district_choice := [CStr "North"; CStr "South"];
                 worker_type := Some "Main"; area := Some "Rural"; gender := Some "Male";
                 selected_clusters := [] |}
              mixed_districts) as [H _].
  - reflexivity.
  - apply Permutation_refl.
  - rewrite H; [reflexivity|discriminate].
Defined.

(** ** The charts against the KPI *)

Lemma view_conserved (vc : ValueCol) (key : FRow -> cell) (fd : list FRow) :
  (forall r, In r fd -> is_finite (value vc r) = true) ->
  exists total,
    fsum (map snd (sort_values_desc (group_sum vc key fd))) = Fin total
    /\ total == qsum (map (value_Q vc) (filter (fun r => notna (key r)) fd)).
Proof.
  intros Hfin.
  destruct (group_sum_conserved vc key fd Hfin) as [total [Hsum Htotal]].
  assert (Hp : Permutation (map snd (sort_values_desc (group_sum vc key fd)))
                           (map snd (group_sum vc key fd)))
    by apply Permutation_map, sort_by_perm.
  assert (Hf : Forall (fun v => is_finite v = true)
                      (map snd (sort_values_desc (group_sum vc key fd)))).
  { rewrite Hp, group_sum_values by assumption.
    apply Forall_forall. intros v Hv. apply in_map_iff in Hv as [x [<- _]].
    reflexivity. }
  destruct (fsum_perm _ _ Hp Hf) as [H1 [H2 H3]].
  eexists; split; [exact H1|].
  rewrite H3. rewrite Hsum in H2. inversion H2 as [Heq].
  rewrite <- Heq. exact Htotal.
Qed.

Lemma run_dashboard (ctl : Controls) (long : list LongRow)
      (d : Dashboard) (out : list Element) :
  run ctl long = (Some d, out) ->
  geography ctl long <> []
  /\ filtered_data d = fst (with_value ctl (filtered ctl long))
  /\ value_col d = snd (with_value ctl (filtered ctl long))
  /\ industry_view d
     = industry_df (snd (with_value ctl (filtered ctl long)))
                   (fst (with_value ctl (filtered ctl long)))
  /\ geography_view d
     = geo_df ctl (snd (with_value ctl (filtered ctl long)))
              (fst (with_value ctl (filtered ctl long))).
Proof.
  intros Hrun.
  assert (Hgeo : geography ctl long <> []).
  { intros He. rewrite (run_stops ctl long He) in Hrun. discriminate. }
  destruct (run_continues ctl long Hgeo) as [m [out' [Hrun' _]]].
  cbv zeta in Hrun'. rewrite Hrun in Hrun'. inversion Hrun'; subst.
  simpl. unfold filtered. auto.
Qed.

Lemma isin_nan_free (c : cell) (l : list cell) :
  isin CNaN l = false -> isin c l = true -> notna c = true.
Proof.
  intros Hn Hc. destruct c; auto. congruence.
Qed.

Lemma plain_total (fd : list LongRow) (p : FRow -> bool) :
  (forall r, In r (plain fd) -> p r = true) ->
  qsum (map (value_Q ColCount) (filter p (plain fd))) = grand_total fd.
Proof.
  intros H. rewrite filter_all by assumption.
  unfold plain, grand_total. rewrite map_map. reflexivity.
Qed.

(** With percentage mode off, the bars of the industry chart add up to the
    Total Workers indicator when no blank industry is ticked, and so do the
    bars of the geography chart when its key cannot be blank: no blank state
    ticked in the state-wise view, a non-empty district selection without a
    blank in the district-wise view. *)
Theorem charts_add_up_to_total (ctl : Controls) (long : list LongRow)
        (d : Dashboard) (out : list Element) :
  run ctl long = (Some d, out) ->
  show_percentage ctl = false ->
  kpi_total_workers (kpis (filtered_data d)) = grand_total (filtered ctl long)
  /\ (isin CNaN (selected_clusters ctl) = false ->
      feq (fsum (map snd (industry_view d)))
          (Fin (kpi_total_workers (kpis (filtered_data d)))))
  /\ (geo_key_present ctl ->
      feq (fsum (map snd (geography_view d)))
          (Fin (kpi_total_workers (kpis (filtered_data d))))).
Proof.
  intros Hrun Hoff.
  destruct (run_dashboard ctl long d out Hrun) as [_ [Hfd [Hvc [Hind Hgeo]]]].
  unfold with_value in Hfd, Hvc, Hind, Hgeo.
  rewrite Hoff in Hfd, Hvc, Hind, Hgeo. simpl in Hfd, Hvc, Hind, Hgeo.
  assert (Hk : kpi_total_workers (kpis (filtered_data d)) = grand_total (filtered ctl long)).
  { rewrite Hfd. unfold kpis, plain, grand_total. simpl. now rewrite map_map. }
  split; [exact Hk|].
  assert (Hmem := proj2 (filtered_is_intersection ctl long)).
  rewrite Hk. split.
  - intros Hn. rewrite Hind. unfold industry_df.
    destruct (view_conserved ColCount (fun r => Industry_Category (base r))
                (plain (filtered ctl long))) as [total [Hs Ht]];
      [reflexivity|].
    rewrite Hs. simpl. rewrite Ht, plain_total; [reflexivity|].
    intros r Hr. unfold plain in Hr. apply in_map_iff in Hr as [r0 [<- Hr0]].
    simpl. apply Hmem in Hr0.
    apply (isin_nan_free _ (selected_clusters ctl)); tauto.
  - intros Hpres. rewrite Hgeo. unfold geo_df.
    destruct (view_conserved ColCount (geo_col ctl)
                (plain (filtered ctl long))) as [total [Hs Ht]];
      [reflexivity|].
    rewrite Hs. simpl. rewrite Ht, plain_total; [reflexivity|].
    intros r Hr. unfold plain in Hr. apply in_map_iff in Hr as [r0 [<- Hr0]].
    apply Hmem in Hr0. unfold geo_col, geo_key_present in *. simpl.
    destruct (view_level ctl) eqn:Ev.
    + destruct Hpres as [Hne Hn].
      destruct Hr0 as [_ [_ [Hd _]]]. unfold district_pass, selected_districts in Hd.
      rewrite Ev in Hd. destruct (district_choice ctl) as [|c cs]; [congruence|].
      apply (isin_nan_free _ (c :: cs)); assumption.
    + apply (isin_nan_free _ (selected_states ctl)); tauto.
Qed.

Lemma charts_add_up_to_total_witness :
  exists d out,
    run statewise_controls two_districts = (Some d, out)
    /\ feq (fsum (map snd (industry_view d))) (Fin 1200)
    /\ feq (fsum (map snd (geography_view d))) (Fin 1200).
Proof.
  destruct (run statewise_controls two_districts) as [[d|] out] eqn:E;
    [|vm_compute in E; discriminate].
  exists d, out. split; [reflexivity|].
  destruct (charts_add_up_to_total statewise_controls two_districts d out E eq_refl)
    as [Hk [Hi Hg]].
  rewrite Hk in Hi, Hg.
  split; [exact (Hi eq_refl)|exact (Hg eq_refl)].
Defined.

(** ** Percentages of non-negative counts *)

Lemma qsum_nonneg (l : list Q) : (forall x, In x l -> 0 <= x) -> 0 <= qsum l.
Proof.
  induction l as [|a l IH]; simpl; intros H; [apply Qle_refl|].
  assert (0 <= a) by auto. assert (0 <= qsum l) by auto. lra.
Qed.

Lemma qsum_member_le (l : list Q) (x : Q) :
  (forall y, In y l -> 0 <= y) -> In x l -> x <= qsum l.
Proof.
  induction l as [|a l IH]; simpl; intros H; [easy|].
  intros [->|Hin].
  - assert (0 <= qsum l) by (apply qsum_nonneg; auto). lra.
  - assert (0 <= a) by auto. assert (x <= qsum l) by auto. lra.
Qed.

Lemma ratio_bounds (c t : Q) :
  0 <= c -> c <= t -> ~ t == 0 -> 0 <= c / t /\ c / t <= 1.
Proof.
  intros Hc Hct Ht.
  assert (Hpos : 0 < t) by (apply Qlt_leneq; split; [lra|intros E; apply Ht; lra]).
  split.
  - apply Qle_shift_div_l; [assumption|lra].
  - apply Qle_shift_div_r; [assumption|lra].
Qed.

Lemma nonneg_grand_total (fd : list LongRow) (r : LongRow) :
  nonneg_counts fd -> In r fd ->
  0 <= Count r /\ Count r <= grand_total fd.
Proof.
  intros Hn Hr. split; [now apply Hn|].
  unfold grand_total. apply qsum_member_le.
  - intros y Hy. apply in_map_iff in Hy as [r0 [<- Hr0]]. now apply Hn.
  - now apply in_map.
Qed.

Lemma percentage_exact_bounds (fd : list LongRow) :
  nonneg_counts fd ->
  ~ grand_total fd == 0 ->
  forall r, In r (percentage fd) ->
            exists q, Value r = Some (Fin q) /\ 0 <= q /\ q <= 100.
Proof.
  intros Hn Hnz r Hr. apply in_percentage in Hr as [Hin Hv].
  rewrite (qdiv_nonzero _ _ Hnz) in Hv. simpl in Hv.
  eexists. split; [exact Hv|].
  destruct (nonneg_grand_total fd (base r) Hn Hin) as [H0 Ht].
  destruct (ratio_bounds _ _ H0 Ht Hnz) as [Hlo Hhi].
  split; [|lra].
  apply Qmult_le_0_compat; [assumption|discriminate].
Qed.

(** ** Ranking of the investment view *)

Lemma invest_totals (fd : list FRow) :
  qsum (map Total_Workers (invest_df fd))
  == qsum (map (fun r => Count (base r))
               (filter (fun r => notna (District (base r))) fd)).
Proof.
  unfold invest_df, invest_agg. rewrite !map_map. simpl.
  rewrite (qsum_groups _ _ (fun r => Count (base r))
             (cell_groups (fun r => District (base r)) fd)).
  apply qsum_perm, Permutation_map.
  unfold cell_groups. rewrite groupby_rows_perm.
  rewrite filter_ext with (g := fun r => notna (District (base r))); [reflexivity|].
  intros r. unfold keyed, key_of. now destruct (notna (District (base r))).
Qed.

Lemma score_bounds (total : Q) (n : nat) :
  0 <= total -> n <> 0%nat ->
  0 <= total / inject_Z (Z.of_nat n) /\ total / inject_Z (Z.of_nat n) <= total.
Proof.
  intros Ht Hn.
  assert (Hone : 1 <= inject_Z (Z.of_nat n)).
  { unfold Qle; simpl. lia. }
  assert (Hpos : 0 < inject_Z (Z.of_nat n)) by lra.
  split.
  - apply Qle_shift_div_l; [assumption|lra].
  - apply Qle_shift_div_r; [assumption|]. nra.
Qed.

Lemma investment_exact_ranking (fd : list FRow) :
  StronglySorted
    (fun a b => desc_before (Investment_Score a) (Investment_Score b) = true)
    (invest_shown fd)
  /\ qsum (map Total_Workers (invest_shown fd))
     == qsum (map (fun r => Count (base r))
                  (filter (fun r => notna (District (base r))) fd))
  /\ ((forall r, In r fd -> 0 <= Count (base r)) ->
      forall x, In x (invest_shown fd) -> Industry_Count x <> 0%nat ->
                exists q, Investment_Score x = Fin q
                          /\ 0 <= q /\ q <= Total_Workers x).
Proof.
  split; [|split].
  - apply sort_by_sorted.
    + intros x y. apply desc_before_total.
    + intros x y z. apply desc_before_trans.
  - rewrite <- invest_totals. apply qsum_perm, Permutation_map, sort_by_perm.
  - intros Hn x Hx Hc.
    apply (Permutation_in _ (sort_by_perm _ _ (invest_df fd))) in Hx.
    destruct (in_invest_df fd x Hx) as [rs [Hg [Ht [_ Hs]]]].
    destruct (group_rows (fun r => District (base r)) fd _ rs Hg) as [_ Hrs].
    rewrite Hs, (score_defined _ _ Hc).
    eexists; split; [reflexivity|].
    apply score_bounds; [|assumption].
    rewrite Ht. apply qsum_nonneg. intros c Hin.
    apply in_map_iff in Hin as [r [<- Hr]].
    rewrite Hrs in Hr. apply filter_In in Hr as [Hr _]. now apply Hn.
Qed.

(** ** One risk industry per district *)

Lemma qsum_two_members (A : Type) (f : A -> Q) (l : list A) (x y : A) :
  (forall z, In z l -> 0 <= f z) ->
  In x l -> In y l -> x <> y ->
  f x + f y <= qsum (map f l).
Proof.
  induction l as [|a l IH]; simpl; intros Hn Hx Hy Hxy; [easy|].
  assert (Ha : 0 <= f a) by auto.
  assert (Hmem : forall z, In z l -> f z <= qsum (map f l)).
  { intros z Hz. apply qsum_member_le.
    - intros v Hv. apply in_map_iff in Hv as [w [<- Hw]]. auto.
    - now apply in_map. }
  destruct Hx as [<-|Hx], Hy as [<-|Hy].
  - congruence.
  - specialize (Hmem y Hy). lra.
  - specialize (Hmem x Hx). lra.
  - assert (f x + f y <= qsum (map f l)) by auto. lra.
Qed.

Section RiskFacts.

Variable fd : list FRow.
Hypothesis nonneg : forall r, In r fd -> 0 <= Count (base r).

Lemma dep_count_nonneg (x : DepRow) : In x (dep_df fd) -> 0 <= dep_Count x.
Proof.
  unfold dep_df. intros Hx. apply in_map_iff in Hx as [[[d i] c] [<- Hin]].
  simpl. destruct (district_industry_content fd d i c Hin) as [_ [_ ->]].
  apply qsum_nonneg. intros v Hv. apply in_map_iff in Hv as [r [<- Hr]].
  apply filter_In in Hr as [Hr _]. now apply nonneg.
Qed.

Lemma dep_counts_of_district (d : cell) :
  qsum (map dep_Count (filter (fun x => cell_eqb (dep_District x) d) (dep_df fd)))
  = district_total d (district_industry fd).
Proof.
  unfold dep_df, district_total.
  rewrite filter_map_comm, map_map. reflexivity.
Qed.

Lemma dep_share (x : DepRow) :
  In x (dep_df fd) ->
  Share x = qdiv (dep_Count x)
                 (district_total (dep_District x) (district_industry fd)).
Proof.
  unfold dep_df. intros Hx. apply in_map_iff in Hx as [y [<- _]]. reflexivity.
Qed.

Lemma dep_count_le_total (x : DepRow) :
  In x (dep_df fd) ->
  dep_Count x <= district_total (dep_District x) (district_industry fd).
Proof.
  intros Hx. rewrite <- dep_counts_of_district.
  apply qsum_member_le.
  - intros v Hv. apply in_map_iff in Hv as [z [<- Hz]].
    apply filter_In in Hz as [Hz _]. now apply dep_count_nonneg.
  - apply in_map, filter_In. split; [assumption|apply cell_eqb_refl].
Qed.

(** A share that is a number lies between 0 and 1. *)
Lemma share_bounds (x : DepRow) (q : Q) :
  In x (dep_df fd) -> Share x = Fin q -> 0 <= q /\ q <= 1.
Proof.
  intros Hx Hq. rewrite (dep_share x Hx) in Hq.
  unfold qdiv in Hq.
  destruct (Qeq_bool (district_total (dep_District x) (district_industry fd)) 0) eqn:E.
  - destruct (sign (dep_Count x)); discriminate.
  - inversion Hq as [Hq']. apply Qeq_bool_neq in E.
    apply ratio_bounds; auto using dep_count_nonneg, dep_count_le_total.
Qed.

Lemma risk_share (x : DepRow) :
  In x (risk_df fd) ->
  let t := district_total (dep_District x) (district_industry fd) in
  In x (dep_df fd) /\ 0 < t /\ (6 # 10) * t < dep_Count x.
Proof.
  intros Hx t. apply filter_In in Hx as [Hin Hgt].
  split; [assumption|].
  pose proof (dep_count_nonneg x Hin) as Hc.
  pose proof (dep_count_le_total x Hin) as Hle. fold t in Hle.
  rewrite (dep_share x Hin) in Hgt. fold t in Hgt. unfold qdiv in Hgt.
  destruct (Qeq_bool t 0) eqn:E.
  - apply Qeq_bool_eq in E.
    assert (Hz : dep_Count x == 0) by lra.
    unfold sign in Hgt. rewrite (proj1 (Qeq_alt _ _) Hz) in Hgt. discriminate.
  - apply Qeq_bool_neq in E. simpl in Hgt. apply negb_true_iff in Hgt.
    assert (Hpos : 0 < t) by (apply Qlt_leneq; split; [lra|intros E'; apply E; lra]).
    split; [assumption|].
    destruct (Qlt_le_dec (6 # 10) (dep_Count x / t)) as [Hlt|Hge].
    + apply (proj2 (Qmult_lt_r _ _ t Hpos)) in Hlt.
      setoid_replace (dep_Count x / t * t) with (dep_Count x) in Hlt
        by (field; exact E).
      exact Hlt.
    + apply Qle_bool_iff in Hge. congruence.
Qed.

End RiskFacts.

Lemma Q_eq_dec (a b : Q) : {a = b} + {a <> b}.
Proof. decide equality; [apply Pos.eq_dec|apply Z.eq_dec]. Qed.

Lemma cell_eq_dec (a b : cell) : {a = b} + {a <> b}.
Proof. decide equality; [apply Q_eq_dec|apply string_dec]. Qed.

Lemma DepRow_eq_dec (x y : DepRow) : {x = y} + {x <> y}.
Proof.
  decide equality; try apply cell_eq_dec; try apply Q_eq_dec.
  decide equality; apply Q_eq_dec.
Qed.

Lemma one_risk_exact (fd : list FRow) :
  (forall r, In r fd -> 0 <= Count (base r)) ->
  (forall x q, In x (dep_df fd) -> Share x = Fin q -> 0 <= q /\ q <= 1)
  /\ (forall x y,
         In x (risk_df fd) -> In y (risk_df fd) ->
         cell_eqb (dep_District x) (dep_District y) = true ->
         x = y).
Proof.
  intros Hn. split; [intros x q; now apply share_bounds|].
  intros x y Hx Hy Hd.
  destruct (DepRow_eq_dec x y) as [|Hne]; [assumption|exfalso].
  destruct (risk_share fd Hn x Hx) as [Hxin [_ Hxs]].
  destruct (risk_share fd Hn y Hy) as [Hyin [Hpos Hys]].
  rewrite (district_total_eqb _ _ (district_industry fd) Hd) in Hxs.
  set (t := district_total (dep_District y) (district_industry fd)) in *.
  assert (Hsum : dep_Count x + dep_Count y <= t).
  { unfold t. rewrite <- (dep_counts_of_district fd).
    apply qsum_two_members; auto.
    - intros z Hz. apply filter_In in Hz as [Hz _].
      now apply (dep_count_nonneg fd Hn).
    - apply filter_In. auto.
    - apply filter_In. split; [assumption|apply cell_eqb_refl]. }
  lra.
Qed.

(** ** The urbanization module *)

Lemma string_eqb_trans (a b c : string) :
  String.eqb a b = true -> String.eqb b c = true -> String.eqb a c = true.
Proof. rewrite !String.eqb_eq. congruence. Qed.

Lemma ur_data_filter (ctl : Controls) (long : list LongRow) :
  ur_data ctl long
  = filter (fun r => state_mask ctl r && industry_mask ctl r
                     && worker_type_mask ctl r && gender_mask ctl r
                     && district_pass ctl r) long.
Proof.
  unfold ur_data. rewrite by_district_filter. apply filter_filter_and.
Qed.

Lemma filtered_of_ur_data (ctl : Controls) (long : list LongRow) :
  filtered ctl long = filter (area_mask ctl) (ur_data ctl long).
Proof.
  rewrite filtered_filter, ur_data_filter, filter_filter_and.
  apply filter_ext. intros r. unfold all_masks.
  destruct (state_mask ctl r), (district_pass ctl r), (worker_type_mask ctl r),
    (area_mask ctl r), (gender_mask ctl r), (industry_mask ctl r); reflexivity.
Qed.

Lemma area_group (ctl : Controls) (a : string) (r : LongRow) :
  area ctl = Some a ->
  in_group String.eqb (@Area Q) a r = area_mask ctl r.
Proof.
  intros Ha. unfold in_group, area_mask, eq_sel. rewrite Ha.
  destruct (Area r); [apply String.eqb_sym|reflexivity].
Qed.

Lemma ur_df_slice (dt : dtype) (ctl : Controls) (long : list LongRow)
      (a : string) (total : Q) :
  In (a, total) (ur_df_as dt ctl long) ->
  total = series_sum dt
            (map (@Count Q)
                 (filter (fun r => eq_sel (Area r) (Some a)) (ur_data ctl long))).
Proof.
  intros Hin. unfold ur_df_as in Hin.
  apply in_map_iff in Hin as [[a' rs] [Heq Hg]]. simpl in Heq.
  inversion Heq; subst; clear Heq.
  destruct (groupby_content _ _ String.eqb (@Area Q)
              String.eqb_refl String.eqb_sym string_eqb_trans
              String.leb (ur_data ctl long) a rs Hg) as [-> _].
  f_equal. f_equal. apply filter_ext. intros r.
  unfold in_group, eq_sel. destruct (Area r); [apply String.eqb_sym|reflexivity].
Qed.

Lemma ur_df_has_slice (dt : dtype) (ctl : Controls) (long : list LongRow)
      (r : LongRow) (a : string) :
  In r (ur_data ctl long) -> Area r = Some a ->
  In (a, series_sum dt
           (map (@Count Q)
                (filter (fun r => eq_sel (Area r) (Some a)) (ur_data ctl long))))
     (ur_df_as dt ctl long).
Proof.
  intros Hr Ha.
  destruct (groupby_covers _ _ String.eqb (@Area Q)
              String.eqb_refl String.eqb_sym string_eqb_trans
              String.leb (ur_data ctl long) r a Hr Ha) as [[k krs] [Hg He]].
  simpl in He. apply String.eqb_eq in He; subst k.
  assert (Hin : In (a, series_sum dt (map (@Count Q) krs)) (ur_df_as dt ctl long)).
  { unfold ur_df_as. apply in_map_iff. exists (a, krs). auto. }
  rewrite <- (ur_df_slice dt ctl long a _ Hin). exact Hin.
Qed.

(** The rows behind the urban/rural table are the long rows that pass the
    state, industry, worker-type and gender masks and the district mask when
    one is active; the area mask is not applied.  The table has one slice for
    every area among those rows, holding the Count of the rows of that area
    summed at the dtype of the column, so areas other than the selected one
    are shown too; the filtered set is the part of those rows in the selected
    area, and the slice of the selected area is the grand total of the
    filtered set. *)
Theorem urban_slice_is_total (dt : dtype) (ctl : Controls) (long : list LongRow) :
  (forall r,
      In r (ur_data ctl long) <->
      In r long
      /\ isin (State r) (selected_states ctl) = true
      /\ isin (Industry_Category r) (selected_clusters ctl) = true
      /\ eq_sel (Worker_Type r) (worker_type ctl) = true
      /\ eq_sel (Gender r) (gender ctl) = true
      /\ district_pass ctl r = true)
  /\ (forall a total,
         In (a, total) (ur_df_as dt ctl long) ->
         total = series_sum dt
                   (map (@Count Q)
                        (filter (fun r => eq_sel (Area r) (Some a))
                                (ur_data ctl long))))
  /\ (forall r a,
         In r (ur_data ctl long) -> Area r = Some a ->
         exists total, In (a, total) (ur_df_as dt ctl long))
  /\ filtered ctl long = filter (area_mask ctl) (ur_data ctl long)
  /\ (forall a total,
         area ctl = Some a -> In (a, total) (ur_df_as dt ctl long) ->
         total = total_as dt (filtered ctl long))
  /\ (forall a,
         area ctl = Some a -> filtered ctl long <> [] ->
         In (a, total_as dt (filtered ctl long)) (ur_df_as dt ctl long)).
Proof.
  pose proof (filtered_of_ur_data ctl long) as Hf.
  split.
  { intros r. rewrite ur_data_filter, filter_In, !andb_true_iff.
    unfold state_mask, industry_mask, worker_type_mask, gender_mask. tauto. }
  split; [intros a total; apply ur_df_slice|].
  split.
  { intros r a Hr Ha. eexists. exact (ur_df_has_slice dt ctl long r a Hr Ha). }
  split; [exact Hf|].
  assert (Hsel : forall a, area ctl = Some a ->
                 series_sum dt
                   (map (@Count Q)
                        (filter (fun r => eq_sel (Area r) (Some a)) (ur_data ctl long)))
                 = total_as dt (filtered ctl long)).
  { intros a Ha. rewrite Hf. unfold total_as. f_equal. f_equal.
    apply filter_ext. intros r. unfold area_mask. now rewrite Ha. }
  split.
  - intros a total Ha Hin. rewrite (ur_df_slice dt ctl long a total Hin).
    now apply Hsel.
  - intros a Ha Hne.
    assert (Hex : exists r, In r (filtered ctl long)).
    { destruct (filtered ctl long) as [|r rs]; [congruence|].
      exists r. now left. }
    destruct Hex as [r Hr]. rewrite Hf in Hr.
    apply filter_In in Hr as [Hr Hm].
    unfold area_mask, eq_sel in Hm. rewrite Ha in Hm.
    destruct (Area r) as [a'|] eqn:Ea; [|discriminate].
    apply String.eqb_eq in Hm; subst a'.
    rewrite <- (Hsel a Ha). now apply (ur_df_has_slice dt ctl long r a).
Qed.

Lemma urban_slice_is_total_witness :
  ur_df_as int64 example_controls area_rows = [("Rural", 11); ("Urban", 22)]
  /\ filtered example_controls area_rows = [area_row "Main" "Rural" 0 11]
  /\ In ("Rural", total_as int64 (filtered example_controls area_rows))
        (ur_df_as int64 example_controls area_rows)
  /\ exists total, In ("Urban", total) (ur_df_as int64 example_controls area_rows).
Proof.
  destruct (urban_slice_is_total int64 example_controls area_rows)
    as [_ [_ [Hall [_ [_ Hsel]]]]].
  split; [reflexivity|]. split; [reflexivity|]. split.
  - apply Hsel; [reflexivity|discriminate].
  - apply (Hall (area_row "Main" "Urban" 2 22) "Urban"); [|reflexivity].
    vm_compute. auto.
Defined.

(** ** The gender module *)

Lemma ig_eqb_refl (k : cell * string) : ig_eqb k k = true.
Proof. unfold ig_eqb. now rewrite cell_eqb_refl, String.eqb_refl. Qed.

Lemma ig_eqb_sym (k k' : cell * string) : ig_eqb k k' = ig_eqb k' k.
Proof.
  unfold ig_eqb. now rewrite (cell_eqb_sym (fst k)), (String.eqb_sym (snd k)).
Qed.

Lemma ig_eqb_trans (a b c : cell * string) :
  ig_eqb a b = true -> ig_eqb b c = true -> ig_eqb a c = true.
Proof.
  unfold ig_eqb. rewrite !andb_true_iff.
  intros [H1 H2] [H3 H4]. eauto using cell_eqb_trans, string_eqb_trans.
Qed.

Lemma gender_rows_of_filtered (ctl : Controls) (long : list LongRow) :
  filtered ctl long
  = filter (fun r => district_pass ctl r && area_mask ctl r
                     && gender_mask ctl r && industry_mask ctl r)
           (gender_rows ctl long).
Proof.
  rewrite filtered_filter. unfold gender_rows. rewrite filter_filter_and.
  apply filter_ext. intros r. unfold all_masks.
  destruct (state_mask ctl r), (district_pass ctl r), (worker_type_mask ctl r),
    (area_mask ctl r), (gender_mask ctl r), (industry_mask ctl r); reflexivity.
Qed.

(** The gender chart is computed from the long table under the state and
    worker-type selections only: every filtered row is among its rows, district,
    area, gender and industry selections notwithstanding.  Each of its bars is
    the Count of the rows of one industry and gender, and the bars add up to the
    Count of its rows that have both. *)
Theorem gender_chart_rows (ctl : Controls) (long : list LongRow) :
  subseq (filtered ctl long) (gender_rows ctl long)
  /\ (forall r, In r (gender_rows ctl long) <->
                In r long
                /\ isin (State r) (selected_states ctl) = true
                /\ eq_sel (Worker_Type r) (worker_type ctl) = true)
  /\ (forall i g c,
         In (i, g, c) (gender_df ctl long) ->
         i <> CNaN
         /\ c = qsum (map (@Count Q)
                          (filter (fun r => cell_eqb i (Industry_Category r)
                                            && eq_sel (Gender r) (Some g))
                                  (gender_rows ctl long))))
  /\ qsum (map snd (gender_df ctl long))
     == qsum (map (@Count Q)
                  (filter (fun r => notna (Industry_Category r)
                                    && match Gender r with Some _ => true | None => false end)
                          (gender_rows ctl long))).
Proof.
  split; [rewrite gender_rows_of_filtered; apply subseq_filter|].
  split.
  { intros r. unfold gender_rows. rewrite filter_In, andb_true_iff.
    unfold state_mask, worker_type_mask. tauto. }
  split.
  - intros i g c Hin. unfold gender_df in Hin.
    apply in_map_iff in Hin as [[[i' g'] rs] [Heq Hg]]. simpl in Heq.
    inversion Heq; subst; clear Heq.
    destruct (groupby_content _ _ ig_eqb industry_gender_key
                ig_eqb_refl ig_eqb_sym ig_eqb_trans ig_leb
                (gender_rows ctl long) (i, g) rs Hg) as [Hrs Hne].
    assert (Hi : i <> CNaN).
    { destruct rs as [|r rs']; [exfalso; now apply Hne|].
      assert (Hr : In r (filter (in_group ig_eqb industry_gender_key (i, g))
                                (gender_rows ctl long)))
        by (rewrite <- Hrs; now left).
      apply filter_In in Hr as [_ Hr].
      unfold in_group, industry_gender_key in Hr.
      destruct (Gender r); [|discriminate].
      destruct (Industry_Category r) eqn:Ei; simpl in Hr; try discriminate;
        unfold ig_eqb in Hr; simpl in Hr; intros ->; discriminate. }
    split; [assumption|]. rewrite Hrs. f_equal. f_equal.
    apply filter_ext. intros r.
    unfold in_group, industry_gender_key, eq_sel, ig_eqb.
    destruct (Gender r) as [g'|]; [|now rewrite andb_false_r].
    destruct (Industry_Category r) eqn:Ei; simpl;
      try (now rewrite (String.eqb_sym g g')).
    destruct i; simpl; congruence.
  - unfold gender_df. rewrite map_map. simpl.
    rewrite (qsum_groups _ _ (@Count Q)).
    apply qsum_perm, Permutation_map.
    rewrite groupby_rows_perm.
    rewrite filter_ext with
      (g := fun r => notna (Industry_Category r)
                     && match Gender r with Some _ => true | None => false end);
      [reflexivity|].
    intros r. unfold keyed, industry_gender_key.
    destruct (Gender r); [|now rewrite andb_false_r].
    destruct (notna (Industry_Category r)); reflexivity.
Qed.

(** ** Distinct values and the number of groups *)

Lemma unique_distinct (l : list cell) : distinct_cells (unique l).
Proof.
  induction l as [|c l IH]; simpl; [exact I|]. split.
  - intros d Hd. apply filter_In in Hd as [_ Hd].
    apply negb_true_iff in Hd. now rewrite cell_eqb_sym.
  - induction (unique l) as [|u us IHu]; simpl; [exact I|].
    destruct IH as [Hu Hus].
    destruct (negb (cell_eqb u c)); simpl; auto.
    split; auto. intros d Hd. apply filter_In in Hd as [Hd _]. auto.
Qed.

Lemma distinct_remove (k : cell) (l : list cell) :
  distinct_cells l ->
  (List.length (filter (fun d => negb (cell_eqb d k)) l)
   + (if isin k l then 1 else 0) = List.length l)%nat.
Proof.
  unfold isin. induction l as [|u l IH]; simpl; [reflexivity|].
  intros [Hu Hl]. specialize (IH Hl).
  rewrite (cell_eqb_sym k u).
  destruct (cell_eqb u k) eqn:E; simpl.
  - rewrite filter_all; [lia|].
    intros d Hd. apply negb_true_iff.
    destruct (cell_eqb d k) eqn:Ed; [|reflexivity].
    rewrite cell_eqb_sym in Ed.
    pose proof (cell_eqb_trans _ _ _ E Ed) as T.
    rewrite (Hu d Hd) in T. discriminate.
  - lia.
Qed.

Lemma length_unique_cons (k : cell) (l : list cell) :
  (List.length (unique (k :: l)) + (if isin k l then 1 else 0)
   = S (List.length (unique l)))%nat.
Proof.
  simpl. rewrite <- (isin_unique k l).
  pose proof (distinct_remove k (unique l) (unique_distinct l)). lia.
Qed.

Lemma length_add_to_group (R : Type) (k : cell) (r : R) (groups : list (cell * list R)) :
  (List.length (add_to_group cell_eqb k r groups)
   + (if existsb (fun g => cell_eqb (fst g) k) groups then 1 else 0)
   = S (List.length groups))%nat.
Proof.
  induction groups as [|[k' rs] groups IH]; simpl; [reflexivity|].
  destruct (cell_eqb k' k); simpl; lia.
Qed.

Lemma collect_has_key (R : Type) (f : R -> cell) (rows : list R) (k : cell) :
  existsb (fun g => cell_eqb (fst g) k)
          (collect cell_eqb (fun r => key_of (f r)) rows)
  = isin k (filter notna (map f rows)).
Proof.
  destruct (collect_spec _ _ cell_eqb (fun r => key_of (f r))
              cell_eqb_refl cell_eqb_sym cell_eqb_trans rows)
    as [_ [Hcontent Hcover]].
  apply eq_true_iff_eq. unfold isin. rewrite !existsb_exists. split.
  - intros [[k' rs] [Hg He]]. simpl in He.
    destruct (Hcontent k' rs Hg) as [Hrs Hne].
    destruct rs as [|r rs']; [exfalso; now apply Hne|].
    assert (Hr : In r (filter (in_group cell_eqb (fun r => key_of (f r)) k') rows))
      by (rewrite <- Hrs; now left).
    apply filter_In in Hr as [Hr Hin]. unfold in_group in Hin.
    destruct (key_of (f r)) as [kr|] eqn:Ek; [|discriminate].
    apply key_of_Some in Ek as [-> Hn].
    exists (f r). split.
    + apply filter_In. split; [now apply in_map|now destruct (f r)].
    + rewrite cell_eqb_sym in He. now apply (cell_eqb_trans _ _ _ He).
  - intros [d [Hd He]]. apply filter_In in Hd as [Hd Hn].
    apply in_map_iff in Hd as [r [<- Hr]].
    destruct (Hcover r (f r) Hr) as [g [Hg Hk]].
    { apply key_of_notna. intros E. now rewrite E in Hn. }
    exists g. split; [assumption|].
    rewrite cell_eqb_sym in He. now apply (cell_eqb_trans _ _ _ Hk).
Qed.

Lemma length_collect (R : Type) (f : R -> cell) (rows : list R) :
  List.length (collect cell_eqb (fun r => key_of (f r)) rows)
  = nunique (map f rows).
Proof.
  unfold nunique. induction rows as [|r rows IH]; simpl; [reflexivity|].
  unfold key_of at 1. destruct (notna (f r)) eqn:E; [|exact IH].
  pose proof (length_add_to_group _ (f r) r
                (collect cell_eqb (fun r => key_of (f r)) rows)) as H1.
  pose proof (length_unique_cons (f r) (filter notna (map f rows))) as H2.
  rewrite collect_has_key in H1.
  destruct (isin (f r) (filter notna (map f rows))); lia.
Qed.

Lemma length_group_sum (vc : ValueCol) (key : FRow -> cell) (fd : list FRow) :
  List.length (sort_values_desc (group_sum vc key fd)) = nunique (map key fd).
Proof.
  unfold sort_values_desc.
  rewrite (Permutation_length (sort_by_perm _ _ _)).
  unfold group_sum, cell_groups, groupby.
  rewrite length_map, (Permutation_length (sort_by_perm _ _ _)).
  apply length_collect.
Qed.

(** The industry chart has as many bars as the Industries indicator says,
    the geography chart as many as the States or Districts indicator, and the
    investment table as many rows as the Districts indicator; the Total Workers
    indicator is the grand total of Count, in percentage mode too. *)
Theorem kpis_count_the_bars (ctl : Controls) (long : list LongRow)
        (d : Dashboard) (out : list Element) :
  run ctl long = (Some d, out) ->
  kpi_industries (kpis (filtered_data d)) = List.length (industry_view d)
  /\ (match view_level ctl with
      | DistrictWise => kpi_districts (kpis (filtered_data d))
      | StateWise => kpi_states (kpis (filtered_data d))
      end = List.length (geography_view d))
  /\ kpi_districts (kpis (filtered_data d))
     = List.length (invest_shown (filtered_data d))
  /\ kpi_total_workers (kpis (filtered_data d)) = grand_total (filtered ctl long).
Proof.
  intros Hrun.
  destruct (run_dashboard ctl long d out Hrun) as [_ [Hfd [_ [Hind Hgeo]]]].
  split; [|split; [|split]].
  - rewrite Hind, <- Hfd. unfold industry_df. now rewrite length_group_sum.
  - rewrite Hgeo, <- Hfd. unfold geo_df. rewrite length_group_sum.
    unfold geo_col. destruct (view_level ctl); reflexivity.
  - unfold invest_shown. rewrite (Permutation_length (sort_by_perm _ _ _)).
    unfold invest_df, invest_agg, cell_groups, groupby.
    rewrite !length_map, (Permutation_length (sort_by_perm _ _ _)).
    now rewrite length_collect.
  - rewrite Hfd. unfold kpis, grand_total; simpl.
    rewrite <- (base_with_value ctl (filtered ctl long)) at 2.
    now rewrite map_map.
Qed.

Lemma kpis_count_the_bars_witness :
  exists d out,
    run percent_controls two_districts = (Some d, out)
    /\ kpi_industries (kpis (filtered_data d)) = 2%nat
    /\ List.length (industry_view d) = 2%nat
    /\ kpi_total_workers (kpis (filtered_data d)) = 1200.
Proof.
  destruct (run percent_controls two_districts) as [[d|] out] eqn:E;
    [|vm_compute in E; discriminate].
  exists d, out. split; [reflexivity|].
  destruct (kpis_count_the_bars percent_controls two_districts d out E)
    as [Hi [_ [_ Ht]]].
  rewrite <- Hi, Ht.
  destruct (run_dashboard percent_controls two_districts d out E) as [_ [Hfd _]].
  rewrite Hfd. repeat split; reflexivity.
Defined.

(** * Sums at the dtype of Count

    The tables below are those of lines 165-167, 264-279 and 331-340 with the
    sums taken at the dtype of the Count column.  As long as the sums stay
    within the range of the dtype they are the exact ones. *)

Lemma adjust_fits (dt : dtype) (q : Q) : fits dt q -> adjust dt q = q.
Proof.
  destruct dt; simpl; [|reflexivity].
  unfold wrap_int64. now intros ->.
Qed.

Lemma fits_below (dt : dtype) (q t : Q) :
  0 <= q -> q <= t -> fits dt t -> fits dt q.
Proof.
  destruct dt; simpl; [|trivial].
  unfold in_int64. rewrite !andb_true_iff, !Qle_bool_iff.
  intros H0 Hle [_ Hhi]. split.
  - apply Qle_trans with 0; [|assumption]. unfold Qle; simpl. lia.
  - now apply Qle_trans with t.
Qed.

Lemma qsum_filter_le (A : Type) (f : A -> Q) (p : A -> bool) (l : list A) :
  (forall x, In x l -> 0 <= f x) ->
  qsum (map f (filter p l)) <= qsum (map f l).
Proof.
  induction l as [|a l IH]; simpl; intros H; [apply Qle_refl|].
  assert (Ha : 0 <= f a) by auto.
  assert (Hl : qsum (map f (filter p l)) <= qsum (map f l)) by auto.
  destruct (p a); simpl; lra.
Qed.

Lemma part_sum_fits (dt : dtype) (fd : list FRow) (p : FRow -> bool) :
  (forall r, In r fd -> 0 <= Count (base r)) ->
  fits dt (qsum (map (fun r => Count (base r)) fd)) ->
  fits dt (qsum (map (fun r => Count (base r)) (filter p fd))).
Proof.
  intros Hn Hfit.
  apply fits_below with (t := qsum (map (fun r => Count (base r)) fd)).
  - apply qsum_nonneg. intros v Hv. apply in_map_iff in Hv as [r [<- Hr]].
    apply filter_In in Hr as [Hr _]. now apply Hn.
  - now apply qsum_filter_le.
  - assumption.
Qed.

(** ** Percentage mode *)

Lemma total_as_exact (dt : dtype) (fd : list LongRow) :
  fits dt (grand_total fd) -> total_as dt fd = grand_total fd.
Proof. apply adjust_fits. Qed.

Lemma percentage_as_exact (dt : dtype) (fd : list LongRow) :
  fits dt (grand_total fd) -> percentage_as dt fd = percentage fd.
Proof.
  intros H. unfold percentage_as, percentage.
  now rewrite (total_as_exact dt fd H).
Qed.

(** C7, as stated, fails twice over.  A set whose counts are all zero is
    not empty, yet every Value is NaN and the Values do not sum to 100.  And
    the int64 counts 2^62, 2^62 and 1 have the total -9223372036854775807 (the
    sum has wrapped), so that the Values are about -50, -50 and 0 and sum to
    just under -100. *)
Lemma values_do_not_sum_to_100 :
  (zero_rows <> []
   /\ map (value ColValue) (percentage_as int64 zero_rows) = [NaN]
   /\ ~ feq (fsum (map (value ColValue) (percentage_as int64 zero_rows))) (Fin 100))
  /\ (total_as int64 huge_rows = inject_Z (- 9223372036854775807)
      /\ (exists q, fsum (map (value ColValue) (percentage_as int64 huge_rows)) = Fin q
                    /\ - 101 < q /\ q < - 100)
      /\ ~ feq (fsum (map (value ColValue) (percentage_as int64 huge_rows)))
               (Fin 100)).
Proof.
  split.
  - split; [discriminate|]. split; [reflexivity|].
    vm_compute. discriminate.
  - split; [reflexivity|]. split.
    + eexists. split; [reflexivity|]. split; vm_compute; reflexivity.
    + vm_compute. discriminate.
Qed.

(** C7 (amended): in percentage mode every row's Value is its Count over
    the grand total of the filtered set, times 100, the grand total being the
    sum of the whole Count column at its dtype; when that sum has not left the
    range of the dtype and is not zero, the Values sum to 100. *)
Theorem percentage_of_grand_total (dt : dtype) (fd : list LongRow) :
  map (fun r => (base r, Value r)) (percentage_as dt fd)
  = map (fun r => (r, Some (fmul (qdiv (Count r) (series_sum dt (map (@Count Q) fd)))
                                 (Fin 100))))
        fd
  /\ (fits dt (grand_total fd) -> ~ grand_total fd == 0 ->
      series_sum dt (map (@Count Q) fd) = grand_total fd
      /\ (forall r, In r (percentage_as dt fd) ->
                    Value r = Some (Fin (Count (base r) / grand_total fd * 100)))
      /\ feq (fsum (map (value ColValue) (percentage_as dt fd))) (Fin 100)).
Proof.
  split.
  - unfold percentage_as, total_as. rewrite map_map. reflexivity.
  - intros Hfit Hnz. split; [now apply total_as_exact|].
    rewrite (percentage_as_exact dt fd Hfit).
    split; [|now apply percentage_sums_to_100].
    intros r Hr. apply in_percentage in Hr as [_ ->].
    now rewrite (qdiv_nonzero _ _ Hnz).
Qed.

Lemma percentage_of_grand_total_witness :
  feq (fsum (map (value ColValue)
                 (percentage_as int64
                    [in_state "Tamilnadu" 0 30; in_state "Kerala" 1 10])))
      (Fin 100).
Proof.
  destruct (percentage_of_grand_total int64
              [in_state "Tamilnadu" 0 30; in_state "Kerala" 1 10]) as [_ H].
  apply H; [reflexivity|]. vm_compute. discriminate.
Defined.

(** When no count is negative, the grand total has not left the range of
    the dtype and is not zero, every percentage is a number between 0 and
    100. *)
Theorem percentage_bounds (dt : dtype) (fd : list LongRow) :
  nonneg_counts fd ->
  fits dt (grand_total fd) ->
  ~ grand_total fd == 0 ->
  forall r, In r (percentage_as dt fd) ->
            exists q, Value r = Some (Fin q) /\ 0 <= q /\ q <= 100.
Proof.
  intros Hn Hfit Hnz. rewrite (percentage_as_exact dt fd Hfit).
  now apply percentage_exact_bounds.
Qed.

Lemma percentage_bounds_witness :
  exists q, Value {| base := in_state "Kerala" 1 10;
                     Value := Some (fmul (qdiv 10 (total_as int64
                                                     [in_state "Tamilnadu" 0 30;
                                                      in_state "Kerala" 1 10]))
                                         (Fin 100)) |}
            = Some (Fin q)
            /\ 0 <= q /\ q <= 100.
Proof.
  apply (percentage_bounds int64
           [in_state "Tamilnadu" 0 30; in_state "Kerala" 1 10]).
  - intros r [<-|[<-|[]]]; simpl; discriminate.
  - reflexivity.
  - vm_compute. discriminate.
  - right; left. reflexivity.
Defined.

(** In percentage mode, when the grand total of the filtered set has not
    left the range of the dtype and is not zero, the bars of the industry chart
    add up to 100 provided no blank industry is ticked, and so do the bars of
    the geography chart when its key cannot be blank.  The bars are sums of the
    Value column, which is float64 whatever the dtype of Count. *)
Theorem charts_add_up_to_100 (dt : dtype) (ctl : Controls) (long : list LongRow) :
  fits dt (grand_total (filtered ctl long)) ->
  ~ grand_total (filtered ctl long) == 0 ->
  (isin CNaN (selected_clusters ctl) = false ->
   feq (fsum (map snd (industry_df ColValue (percentage_as dt (filtered ctl long)))))
       (Fin 100))
  /\ (geo_key_present ctl ->
      feq (fsum (map snd (geo_df ctl ColValue (percentage_as dt (filtered ctl long)))))
          (Fin 100)).
Proof.
  intros Hfit Hnz. rewrite (percentage_as_exact dt _ Hfit).
  set (rows := percentage (filtered ctl long)).
  assert (Hfin : forall r, In r rows -> is_finite (value ColValue r) = true).
  { intros r Hr. apply in_percentage in Hr as [_ Hv]. simpl. rewrite Hv.
    now rewrite (qdiv_nonzero _ _ Hnz). }
  assert (Hall : qsum (map (value_Q ColValue) rows) == 100).
  { pose proof (percentage_sums_to_100 (filtered ctl long) Hnz) as H100.
    fold rows in H100. rewrite fsum_finite in H100.
    - simpl in H100. now rewrite map_map in H100.
    - apply Forall_forall. intros v Hv.
      apply in_map_iff in Hv as [r [<- Hr]]. now apply Hfin. }
  assert (Hmem := proj2 (filtered_is_intersection ctl long)).
  assert (Hbase : forall r, In r rows -> In (base r) (filtered ctl long)).
  { intros r Hr. now apply in_percentage in Hr. }
  split.
  - intros Hn. unfold industry_df.
    destruct (view_conserved ColValue (fun r => Industry_Category (base r)) rows Hfin)
      as [total [Hs Ht]].
    rewrite Hs. simpl. rewrite Ht, filter_all; [exact Hall|].
    intros r Hr. apply Hbase, Hmem in Hr.
    apply (isin_nan_free _ (selected_clusters ctl)); tauto.
  - intros Hpres. unfold geo_df.
    destruct (view_conserved ColValue (geo_col ctl) rows Hfin)
      as [total [Hs Ht]].
    rewrite Hs. simpl. rewrite Ht, filter_all; [exact Hall|].
    intros r Hr. apply Hbase, Hmem in Hr.
    unfold geo_col, geo_key_present in *.
    destruct (view_level ctl) eqn:Ev.
    + destruct Hpres as [Hne Hn].
      destruct Hr as [_ [_ [Hd _]]]. unfold district_pass, selected_districts in Hd.
      rewrite Ev in Hd. destruct (district_choice ctl) as [|c cs]; [congruence|].
      apply (isin_nan_free _ (c :: cs)); assumption.
    + apply (isin_nan_free _ (selected_states ctl)); tauto.
Qed.

Lemma charts_add_up_to_100_witness :
  feq (fsum (map snd (industry_df ColValue
                        (percentage_as int64 (filtered percent_controls two_districts)))))
      (Fin 100)
  /\ feq (fsum (map snd (geo_df percent_controls ColValue
                           (percentage_as int64 (filtered percent_controls two_districts)))))
         (Fin 100).
Proof.
  destruct (charts_add_up_to_100 int64 percent_controls two_districts) as [Hi Hg].
  - reflexivity.
  - vm_compute. discriminate.
  - split; [exact (Hi eq_refl)|exact (Hg eq_refl)].
Defined.

(** ** The investment view *)

Lemma invest_df_as_exact (dt : dtype) (fd : list FRow) :
  (forall x, In x (invest_df fd) -> fits dt (Total_Workers x)) ->
  invest_df_as dt fd = invest_df fd.
Proof.
  intros Hfit. unfold invest_df_as, invest_df, invest_agg_as, invest_agg.
  rewrite !map_map. apply map_ext_in. intros [k rs] Hg. simpl.
  unfold series_sum. rewrite adjust_fits; [reflexivity|].
  apply (Hfit {| inv_District := k;
                 Total_Workers := qsum (map (fun r => Count (base r)) rs);
                 Industry_Count := nunique (map (fun r => Industry_Category (base r)) rs);
                 Investment_Score :=
                   qdiv (qsum (map (fun r => Count (base r)) rs))
                        (inject_Z (Z.of_nat (nunique (map (fun r => Industry_Category (base r)) rs)))) |}).
  unfold invest_df, invest_agg. rewrite map_map.
  apply in_map_iff. exists (k, rs). auto.
Qed.

(** Non-negative counts whose sum is in range have all their group sums in
    range. *)
Lemma invest_totals_fit (dt : dtype) (fd : list FRow) :
  (forall r, In r fd -> 0 <= Count (base r)) ->
  fits dt (qsum (map (fun r => Count (base r)) fd)) ->
  forall x, In x (invest_df fd) -> fits dt (Total_Workers x).
Proof.
  intros Hn Hfit x Hx.
  destruct (in_invest_df fd x Hx) as [rs [Hg [-> _]]].
  destruct (group_rows (fun r => District (base r)) fd _ rs Hg) as [_ ->].
  now apply part_sum_fits.
Qed.

(** The investment table is shown with the largest score first (+inf ahead
    of every number, NaN last).  When no district total has left the range of
    the dtype, the Total_Workers column adds up to the Count of the rows that
    have a District, and where moreover no count is negative a score with at
    least one industry lies between 0 and Total_Workers. *)
Theorem investment_ranking (dt : dtype) (fd : list FRow) :
  StronglySorted
    (fun a b => desc_before (Investment_Score a) (Investment_Score b) = true)
    (invest_shown_as dt fd)
  /\ ((forall x, In x (invest_df fd) -> fits dt (Total_Workers x)) ->
      qsum (map Total_Workers (invest_shown_as dt fd))
      == qsum (map (fun r => Count (base r))
                   (filter (fun r => notna (District (base r))) fd))
      /\ ((forall r, In r fd -> 0 <= Count (base r)) ->
          forall x, In x (invest_shown_as dt fd) -> Industry_Count x <> 0%nat ->
                    exists q, Investment_Score x = Fin q
                              /\ 0 <= q /\ q <= Total_Workers x)).
Proof.
  split.
  - apply sort_by_sorted.
    + intros x y. apply desc_before_total.
    + intros x y z. apply desc_before_trans.
  - intros Hfit. unfold invest_shown_as.
    rewrite (invest_df_as_exact dt fd Hfit). fold (invest_shown fd).
    destruct (investment_exact_ranking fd) as [_ H]. exact H.
Qed.

Lemma investment_ranking_witness :
  exists q, Investment_Score
              {| inv_District := CStr "North"; Total_Workers := 600 + (400 + 0);
                 Industry_Count := 2;
                 Investment_Score := qdiv (600 + (400 + 0)) (inject_Z (Z.of_nat 2)) |}
            = Fin q
            /\ 0 <= q /\ q <= 600 + (400 + 0).
Proof.
  assert (Hn : forall r, In r (plain two_districts) -> 0 <= Count (base r)).
  { intros r Hr.
    repeat (destruct Hr as [<-|Hr]; [simpl; discriminate|]).
    destruct Hr. }
  destruct (investment_ranking int64 (plain two_districts)) as [_ H].
  destruct (H (invest_totals_fit int64 (plain two_districts) Hn eq_refl))
    as [_ Hb].
  apply (Hb Hn
           {| inv_District := CStr "North"; Total_Workers := 600 + (400 + 0);
              Industry_Count := 2;
              Investment_Score := qdiv (600 + (400 + 0)) (inject_Z (Z.of_nat 2)) |}).
  - left. reflexivity.
  - discriminate.
Defined.

(** ** The dependency view *)

Lemma district_industry_as_map (dt : dtype) (fd : list FRow) :
  district_industry_as dt fd
  = map (fun x => (fst x, adjust dt (snd x))) (district_industry fd).
Proof.
  unfold district_industry_as, district_industry. rewrite map_map. reflexivity.
Qed.

Lemma district_total_as_map (dt : dtype) (fd : list FRow) (d : cell) :
  (forall x, In x (district_industry fd) ->
             cell_eqb (fst (fst x)) d = true -> fits dt (snd x)) ->
  district_total_as dt d (district_industry_as dt fd)
  = adjust dt (district_total d (district_industry fd)).
Proof.
  intros Hfit. unfold district_total_as, district_total, series_sum.
  rewrite district_industry_as_map, filter_map_comm, map_map. simpl.
  f_equal. f_equal. apply map_ext_in. intros x Hx.
  apply filter_In in Hx as [Hx Hd]. apply adjust_fits. now apply Hfit.
Qed.

(** Where the sums of a district have not wrapped, its rows of the
    dependency table are the exact ones. *)
Lemma dep_rows_exact (dt : dtype) (fd : list FRow) (d : cell) :
  district_fits dt fd d ->
  filter (fun x => cell_eqb (dep_District x) d) (dep_df_as dt fd)
  = filter (fun x => cell_eqb (dep_District x) d) (dep_df fd).
Proof.
  intros [Hg Ht]. unfold dep_df_as, dep_df.
  rewrite district_industry_as_map, map_map, !filter_map_comm. simpl.
  apply map_ext_in. intros x Hx. apply filter_In in Hx as [Hx Hd].
  rewrite <- district_industry_as_map.
  rewrite (adjust_fits dt (snd x) (Hg x Hx Hd)).
  f_equal.
  rewrite district_total_as_map.
  - rewrite (district_total_eqb _ _ (district_industry fd) Hd).
    now rewrite (adjust_fits dt _ Ht).
  - intros y Hy Hyd. apply (Hg y Hy). now apply cell_eqb_trans with (fst (fst x)).
Qed.

Lemma district_total_le (fd : list FRow) (d : cell) :
  (forall r, In r fd -> 0 <= Count (base r)) ->
  0 <= district_total d (district_industry fd)
  /\ district_total d (district_industry fd)
     <= qsum (map (fun r => Count (base r)) fd).
Proof.
  intros Hn.
  assert (Hc : forall x, In x (district_industry fd) -> 0 <= snd x).
  { intros [[d' i] c] Hx. simpl.
    destruct (district_industry_content fd d' i c Hx) as [_ [_ ->]].
    apply qsum_nonneg. intros v Hv. apply in_map_iff in Hv as [r [<- Hr]].
    apply filter_In in Hr as [Hr _]. now apply Hn. }
  split.
  - unfold district_total. apply qsum_nonneg. intros v Hv.
    apply in_map_iff in Hv as [x [<- Hx]]. apply filter_In in Hx as [Hx _].
    now apply Hc.
  - apply Qle_trans with (qsum (map snd (district_industry fd))).
    + unfold district_total. now apply qsum_filter_le.
    + unfold district_industry. rewrite map_map. simpl.
      rewrite (qsum_groups _ _ (fun r => Count (base r))
                 (groupby pair_eqb pair_leb district_industry_key fd)).
      rewrite (qsum_perm _ _
                 (Permutation_map (fun r => Count (base r))
                    (groupby_rows_perm _ _ pair_eqb district_industry_key
                       pair_leb fd))).
      now apply qsum_filter_le.
Qed.

(** Non-negative counts whose sum is in range leave every district in
    range. *)
Lemma district_fits_all (dt : dtype) (fd : list FRow) :
  (forall r, In r fd -> 0 <= Count (base r)) ->
  fits dt (qsum (map (fun r => Count (base r)) fd)) ->
  forall d, district_fits dt fd d.
Proof.
  intros Hn Hfit d. split.
  - intros [[d' i] c] Hx _. simpl.
    destruct (district_industry_content fd d' i c Hx) as [_ [_ ->]].
    now apply part_sum_fits.
  - destruct (district_total_le fd d Hn) as [H0 Hle].
    now apply fits_below with (t := qsum (map (fun r => Count (base r)) fd)).
Qed.

Lemma dep_df_as_exact (dt : dtype) (fd : list FRow) :
  (forall d, district_fits dt fd d) -> dep_df_as dt fd = dep_df fd.
Proof.
  intros Hfit. unfold dep_df_as, dep_df.
  rewrite district_industry_as_map, map_map. simpl.
  apply map_ext_in. intros x Hx.
  destruct (Hfit (fst (fst x))) as [Hg Ht].
  rewrite <- district_industry_as_map.
  rewrite (adjust_fits dt (snd x) (Hg x Hx (cell_eqb_refl _))).
  f_equal. rewrite district_total_as_map; [now rewrite (adjust_fits dt _ Ht)|].
  intros y Hy _. destruct (Hfit (fst (fst y))) as [Hgy _].
  apply (Hgy y Hy). apply cell_eqb_refl.
Qed.

(** C8, as stated, fails twice over.  A district whose counts are all zero
    stays in the pre-threshold table with a NaN share, and its shares do not
    sum to 1.  And a district with the int64 counts 2^62 and 2^62 has the
    total -2^63 (the sum has wrapped), so that both shares are -1/2 and sum
    to -1. *)
Lemma shares_do_not_sum_to_1 :
  (map (fun x => (dep_District x, Share x)) (dep_df_as int64 (plain zero_rows))
   = [(CStr "Chennai", NaN)]
   /\ ~ feq (fsum (shares_of (CStr "Chennai") (dep_df_as int64 (plain zero_rows))))
            (Fin 1))
  /\ (map dep_Count (dep_df_as int64 (plain (firstn 2 huge_rows)))
      = [inject_Z (2 ^ 62); inject_Z (2 ^ 62)]
      /\ district_total_as int64 (CStr "North")
           (district_industry_as int64 (plain (firstn 2 huge_rows)))
         = inject_Z (- 2 ^ 63)
      /\ Forall (fun v => feq v (Fin (- 1 # 2)))
                (shares_of (CStr "North")
                   (dep_df_as int64 (plain (firstn 2 huge_rows))))
      /\ feq (fsum (shares_of (CStr "North")
                      (dep_df_as int64 (plain (firstn 2 huge_rows)))))
             (Fin (- 1))
      /\ ~ feq (fsum (shares_of (CStr "North")
                        (dep_df_as int64 (plain (firstn 2 huge_rows)))))
               (Fin 1)).
Proof.
  split.
  - split; [reflexivity|]. vm_compute. discriminate.
  - split; [reflexivity|]. split; [reflexivity|].
    split; [repeat constructor|].
    split; [reflexivity|]. vm_compute. discriminate.
Qed.

(** C8 (amended): the dependency table has one row per (District,
    Industry_Category) of the filtered set with the summed Count and the Share
    Count / District total, the sums being taken at the dtype of Count; the
    risk table keeps exactly the rows with Share > 0.6; and the shares of a
    district sum to 1 when its sums have not left the range of the dtype and
    its total is not zero. *)
Theorem dependency_shares (dt : dtype) (fd : list FRow) :
  let counts := district_industry_as dt fd in
  (forall d i c,
      In (d, i, c) counts ->
      d <> CNaN /\ i <> CNaN
      /\ c = series_sum dt
               (map (fun r => Count (base r))
                    (filter (fun r => cell_eqb d (District (base r))
                                      && cell_eqb i (Industry_Category (base r))) fd)))
  /\ (forall r,
         In r fd ->
         District (base r) <> CNaN -> Industry_Category (base r) <> CNaN ->
         exists d i c, In (d, i, c) counts
                       /\ cell_eqb d (District (base r)) = true
                       /\ cell_eqb i (Industry_Category (base r)) = true)
  /\ map (fun x => (dep_District x, dep_Industry x, dep_Count x)) (dep_df_as dt fd)
     = counts
  /\ (forall x, In x (dep_df_as dt fd) ->
                Share x = qdiv (dep_Count x)
                               (series_sum dt
                                  (map snd
                                       (filter (fun y => cell_eqb (fst (fst y))
                                                                  (dep_District x))
                                               counts))))
  /\ (forall x, In x (risk_df_as dt fd) <->
                In x (dep_df_as dt fd) /\ fgt (Share x) (6 # 10) = true)
  /\ (forall x q, In x (risk_df_as dt fd) -> Share x = Fin q -> 6 # 10 < q)
  /\ (forall d, district_fits dt fd d ->
                ~ district_total d (district_industry fd) == 0 ->
                feq (fsum (shares_of d (dep_df_as dt fd))) (Fin 1)).
Proof.
  intros counts.
  split.
  { intros d i c Hin. unfold counts in Hin.
    rewrite district_industry_as_map in Hin.
    apply in_map_iff in Hin as [[[d' i'] c'] [Heq Hin]]. simpl in Heq.
    inversion Heq; subst; clear Heq.
    destruct (district_industry_content fd d i c' Hin) as [Hd [Hi ->]].
    auto. }
  split.
  { intros r Hr Hd Hi.
    destruct (district_industry_covers fd r Hr Hd Hi) as [d [i [c [Hin He]]]].
    exists d, i, (adjust dt c). split; [|assumption].
    unfold counts. rewrite district_industry_as_map.
    apply in_map_iff. exists (d, i, c). auto. }
  split.
  { unfold dep_df_as. fold counts. rewrite map_map. simpl.
    rewrite map_ext with (g := fun x => x); [apply map_id|].
    now intros [[d i] c]. }
  split.
  { unfold dep_df_as. fold counts. intros x Hx.
    apply in_map_iff in Hx as [y [<- _]]. reflexivity. }
  split; [intros x; apply filter_In|].
  split.
  { intros x q Hx Hq. apply filter_In in Hx as [_ Hgt].
    rewrite Hq in Hgt. simpl in Hgt.
    apply negb_true_iff in Hgt.
    destruct (Qlt_le_dec (6 # 10) q) as [Hlt|Hle]; [assumption|].
    apply Qle_bool_iff in Hle. congruence. }
  intros d Hfit Hnz. unfold shares_of.
  rewrite (dep_rows_exact dt fd d Hfit).
  now apply shares_sum_to_1.
Qed.

Lemma dependency_shares_witness :
  feq (fsum (shares_of (CStr "Chennai") (dep_df_as int64 (plain two_industries))))
      (Fin 1).
Proof.
  destruct (dependency_shares int64 (plain two_industries))
    as [_ [_ [_ [_ [_ [_ H]]]]]].
  apply H.
  - apply district_fits_all; [|reflexivity].
    intros r Hr.
    repeat (destruct Hr as [<-|Hr]; [simpl; discriminate|]).
    destruct Hr.
  - vm_compute. discriminate.
Defined.

(** When no count is negative and the sums of every district have stayed
    within the range of the dtype, a share that is a number lies between 0 and
    1 and the risk table holds at most one row per district. *)
Theorem one_risk_industry_per_district (dt : dtype) (fd : list FRow) :
  (forall r, In r fd -> 0 <= Count (base r)) ->
  (forall d, district_fits dt fd d) ->
  (forall x q, In x (dep_df_as dt fd) -> Share x = Fin q -> 0 <= q /\ q <= 1)
  /\ (forall x y,
         In x (risk_df_as dt fd) -> In y (risk_df_as dt fd) ->
         cell_eqb (dep_District x) (dep_District y) = true ->
         x = y).
Proof.
  intros Hn Hfit. unfold risk_df_as.
  rewrite (dep_df_as_exact dt fd Hfit). fold (risk_df fd).
  now apply one_risk_exact.
Qed.

Lemma one_risk_industry_per_district_witness :
  map (fun x => (dep_District x, dep_Industry x)) (risk_df_as int64 (plain two_industries))
  = [(CStr "Chennai", CStr "Textiles")]
  /\ forall x y,
       In x (risk_df_as int64 (plain two_industries)) ->
       In y (risk_df_as int64 (plain two_industries)) ->
       cell_eqb (dep_District x) (dep_District y) = true -> x = y.
Proof.
  assert (Hn : forall r, In r (plain two_industries) -> 0 <= Count (base r)).
  { intros r Hr.
    repeat (destruct Hr as [<-|Hr]; [simpl; discriminate|]).
    destruct Hr. }
  split; [reflexivity|].
  apply (one_risk_industry_per_district int64 (plain two_industries) Hn).
  now apply district_fits_all.
Defined.
